(** * Transport CA selection and service readiness (cloud-on-k8s)

    A shallow embedding of
    - [transport.CustomTransportCertsWatchKey] and
      [transport.ReconcileOrRetrieveCA], and
    - [services.IsServiceReady], [services.ExternalServiceName],
      [services.ExternalServiceURL], [services.NewExternalService] and
      [services.GetExternalService],
    together with the properties of their behaviour.

    The Go code talks to three stateful collaborators through the
    [driver.Interface]: the Kubernetes client (a secret store), the dynamic
    watch registry and the event recorder.  They are modelled by one explicit
    [World] that every operation threads through, in a small state monad.
    Failures of the backend (store unavailable, deadline exceeded, watch
    registration refused) are decided by a [Faults] record that is an input
    of the pass.  The recorder formats its message with [fmt.Sprintf], which
    is a parameter of the pass; the module [fmt] gives Go's function for a
    format without operands, used to run the pass on examples. *)

From Stdlib Require DecimalString.
From stdpp Require Import gmap strings list fin_maps.

(** * [fmt.Sprintf] without operands

    What Go's [fmt.Sprintf(format)] returns when no operand follows the
    format, after the loop [doPrintf] of Go's printer: text is copied, a
    doubled percent sign gives one, and every other verb reports its
    missing operand. *)

Module fmt.

Local Abbreviation list_ascii_of_string :=
  Stdlib.Strings.String.list_ascii_of_string.
Local Abbreviation string_of_list_ascii :=
  Stdlib.Strings.String.string_of_list_ascii.

Import Stdlib.Strings.Ascii.

Definition byte (c : ascii) : N := N_of_ascii c.

Definition between (lo hi : N) (c : ascii) : bool :=
  ((lo <=? byte c) && (byte c <=? hi))%N.

Definition is_flag (c : ascii) : bool :=
  bool_decide (c ∈ ["#"; "0"; "+"; "-"; " "]%char).

Fixpoint skip_flags (l : list ascii) : list ascii :=
  match l with
  | c :: r => if is_flag c then skip_flags r else l
  | [] => []
  end.

(** [parsenum]: the digits at the front of [l]; a number past a million
    gives up and skips to the end of the text. *)
Fixpoint parsenum_from (num : N) (isnum : bool) (l : list ascii)
    : N * bool * list ascii :=
  match l with
  | c :: r =>
      if between 48 57 c then
        if (1000000 <? num)%N then (0%N, false, [])
        else parsenum_from (num * 10 + (byte c - 48))%N true r
      else (num, isnum, l)
  | [] => (num, isnum, [])
  end.

Definition parsenum : list ascii -> N * bool * list ascii :=
  parsenum_from 0%N false.

Fixpoint index_of (c : ascii) (l : list ascii) : option nat :=
  match l with
  | [] => None
  | x :: r => if decide (x = c) then Some 0 else S <$> index_of c r
  end.

(** [parseArgNumber] on a text that starts with an opening bracket: how many
    bytes the index takes, and whether it is a number in brackets. *)
Definition parseArgNumber (l : list ascii) : nat * bool :=
  if decide (length l < 3) then (1, false)
  else
    match index_of "]"%char (tail l) with
    | Some j =>
        let '(_, isnum, rest) := parsenum (take j (tail l)) in
        (S (S j), isnum && bool_decide (rest = []))
    | None => (1, false)
    end.

(** [argNumber] with no operands: the text after an explicit argument index,
    whether an index was found, and whether the argument number is bad (any
    index is, there being no operand to point at). *)
Definition argNumber (l : list ascii) : list ascii * bool * bool :=
  match l with
  | c :: _ =>
      if decide (c = "["%char)
      then let (wid, ok) := parseArgNumber l in (drop wid l, ok, true)
      else (l, false, false)
  | [] => (l, false, false)
  end.

Definition RuneError : list ascii :=
  [ascii_of_N 239; ascii_of_N 191; ascii_of_N 189].

(** [utf8.DecodeRuneInString] followed by [writeRune]: the bytes written for
    the verb, and the text after it.  An invalid encoding is one byte wide
    and is written as U+FFFD. *)
Definition decode_rune (l : list ascii) : list ascii * list ascii :=
  match l with
  | [] => ([], [])
  | c0 :: r =>
      if (byte c0 <? 128)%N then ([c0], r)
      else
        let invalid := (RuneError, r) in
        let first : option (nat * N * N) :=
          if between 194 223 c0 then Some (2, 128%N, 191%N)
          else if between 224 224 c0 then Some (3, 160%N, 191%N)
          else if between 225 236 c0 then Some (3, 128%N, 191%N)
          else if between 237 237 c0 then Some (3, 128%N, 159%N)
          else if between 238 239 c0 then Some (3, 128%N, 191%N)
          else if between 240 240 c0 then Some (4, 144%N, 191%N)
          else if between 241 243 c0 then Some (4, 128%N, 191%N)
          else if between 244 244 c0 then Some (4, 128%N, 143%N)
          else None in
        match first, r with
        | Some (sz, lo, hi), c1 :: r1 =>
            if negb (between lo hi c1) then invalid
            else if sz <=? 2 then ([c0; c1], r1)
            else
              match r1 with
              | c2 :: r2 =>
                  if negb (between 128 191 c2) then invalid
                  else if sz <=? 3 then ([c0; c1; c2], r2)
                  else
                    match r2 with
                    | c3 :: r3 =>
                        if negb (between 128 191 c3) then invalid
                        else ([c0; c1; c2; c3], r3)
                    | [] => invalid
                    end
              | [] => invalid
              end
        | _, _ => invalid
        end
  end.

Definition badWidthString : list ascii := list_ascii_of_string "%!(BADWIDTH)".
Definition badPrecString : list ascii := list_ascii_of_string "%!(BADPREC)".
Definition noVerbString : list ascii := list_ascii_of_string "%!(NOVERB)".
Definition percentBangString : list ascii := list_ascii_of_string "%!".
Definition missingString : list ascii := list_ascii_of_string "(MISSING)".
Definition badIndexString : list ascii := list_ascii_of_string "(BADINDEX)".

(** One verb, from the byte after its percent sign: what is written for it,
    and the text after it. *)
Definition directive (l : list ascii) : list ascii * list ascii :=
  let l1 := skip_flags l in
  let '(l2, afterIndex1, bad1) := argNumber l1 in
  let '(outw, l3, afterIndex2, bad2) :=
    match l2 with
    | c :: r =>
        if decide (c = "*"%char) then (badWidthString, r, false, false)
        else let '(_, widPresent, r') := parsenum l2 in
             ([], r', afterIndex1, afterIndex1 && widPresent)
    | [] => ([], [], afterIndex1, false)
    end in
  let '(outp, l4, afterIndex3, bad3) :=
    match l3 with
    | c :: r =>
        if decide (c = "."%char) then
          let '(r1, found, bad) := argNumber r in
          match r1 with
          | c' :: r2 =>
              if decide (c' = "*"%char)
              then (badPrecString, r2, false, afterIndex2 || bad)
              else let '(_, _, r3) := parsenum r1 in
                   ([], r3, found, afterIndex2 || bad)
          | [] => ([], [], found, afterIndex2 || bad)
          end
        else ([], l3, afterIndex2, false)
    | [] => ([], [], afterIndex2, false)
    end in
  let '(l5, bad4) :=
    if afterIndex3 then (l4, false)
    else let '(r, _, bad) := argNumber l4 in (r, bad) in
  let goodArgNum := negb (bad1 || bad2 || bad3 || bad4) in
  match l5 with
  | [] => (outw ++ outp ++ noVerbString, [])
  | _ :: _ =>
      let (verb, r) := decode_rune l5 in
      (outw ++ outp ++
         (if decide (verb = ["%"%char]) then ["%"%char]
          else if goodArgNum
               then percentBangString ++ verb ++ missingString
               else percentBangString ++ verb ++ badIndexString),
       r)
  end.

(** The loop of [doPrintf]; every round takes at least one byte off the
    format, so [fuel] bounds the rounds by its length. *)
Fixpoint doPrintf (fuel : nat) (l : list ascii) : list ascii :=
  match fuel with
  | 0 => []
  | S n =>
      match l with
      | [] => []
      | c :: r =>
          if decide (c = "%"%char)
          then let (out, r') := directive r in out ++ doPrintf n r'
          else c :: doPrintf n r
      end
  end.

Definition Sprintf (format : string) : string :=
  string_of_list_ascii
    (doPrintf (String.length format) (list_ascii_of_string format)).



End fmt.

(** * The transport CA pass *)

Module Transport.

(** ** Data model *)

(** [types.NamespacedName]. *)
Record NamespacedName := { Namespace : string; Name : string }.

(** A Go [error] value, observed through [err.Error()] and
    [apierrors.IsNotFound(err)]. *)
Record error := { IsNotFound : bool; Error : string }.

(** [corev1.Secret], reduced to its payload. *)
Record Secret := { Data : gmap string string }.

(** [commonv1.SecretRef]: the empty name stands for "no reference". *)
Record SecretRef := { SecretName : string }.

(** [esv1.Elasticsearch], reduced to the fields the pass reads:
    its identity and [Spec.Transport.TLS.Certificate]. *)
Record Elasticsearch := {
  es_Namespace : string;
  es_Name : string;
  Certificate : SecretRef
}.

(** [certificates.CA]. *)
Record CA := { Cert : string; PrivateKey : string }.

(** [certificates.RotationParams]. *)
Record RotationParams := { Validity : nat; RotateBefore : nat }.

(** [name.Namer]: only its [Suffix] method is used. *)
Record Namer := { Suffix : string -> list string -> string }.

Inductive CAType := TransportCAType | HTTPCAType.

Inductive EventType := EventTypeNormal | EventTypeWarning.

Inductive EventReason :=
  | EventReasonUnexpected
  | EventReasonValidation.

(** What [Recorder().Eventf] records. *)
Record Event := {
  ev_object : NamespacedName;
  ev_type : EventType;
  ev_reason : EventReason;
  ev_message : string
}.

(** What [log.Info] records: the message and its key/value pairs. *)
Record LogEntry := { log_msg : string; log_kv : list (string * string) }.

(** An entry of the dynamic watch registry: the watcher (owner) and the name
    of the watched secret. *)
Record NamedWatch := { Watcher : NamespacedName; Watched : string }.

(** The calls a pass makes on its collaborators, in program order. *)
Inductive Call :=
  | CallReconcileCustomCertWatch (key : string) (owner : NamespacedName) (ref : SecretRef)
  | CallGet (k : NamespacedName)
  | CallParse (s : Secret)
  | CallDelete (k : NamespacedName)
  | CallReconcileCAForOwner (owner : NamespacedName).

Definition store_key (k : NamespacedName) : string * string :=
  (Namespace k, Name k).

(** The state shared with the collaborators. [calls] is the history of the
    calls made so far, oldest first. *)
Record World := {
  secrets : gmap (string * string) Secret;
  watches : gmap string NamedWatch;
  events : list Event;
  logs : list LogEntry;
  calls : list Call
}.

(** Infrastructure failures of one pass: when a field is [Some e], the
    corresponding backend call fails with [e] and changes nothing. *)
Record Faults := {
  watch_fault : option error;
  get_fault : option error;
  delete_fault : option error
}.

Definition no_faults : Faults :=
  {| watch_fault := None; get_fault := None; delete_fault := None |}.

(** ** A state monad over [World] *)

Definition M (A : Type) : Type := World -> A * World.

Definition ret {A} (a : A) : M A := fun w => (a, w).

Definition bind {A B} (m : M A) (k : A -> M B) : M B :=
  fun w => let (a, w') := m w in k a w'.

Notation "x <<- m ;; k" := (bind m (fun x => k))
  (at level 100, m at next level, right associativity).
Notation "m ;;; k" := (bind m (fun _ => k))
  (at level 100, right associativity).

Definition record_call (c : Call) : M unit := fun w =>
  (tt, {| secrets := secrets w; watches := watches w; events := events w;
          logs := logs w; calls := calls w ++ [c] |}).

Definition set_secrets (s : gmap (string * string) Secret) : M unit := fun w =>
  (tt, {| secrets := s; watches := watches w; events := events w;
          logs := logs w; calls := calls w |}).

Definition set_watches (ws : gmap string NamedWatch) : M unit := fun w =>
  (tt, {| secrets := secrets w; watches := ws; events := events w;
          logs := logs w; calls := calls w |}).

Definition get_world : M World := fun w => (w, w).

(** ** Collaborators *)

(** [k8s.ExtractNamespacedName]. *)
Definition ExtractNamespacedName (es : Elasticsearch) : NamespacedName :=
  {| Namespace := es_Namespace es; Name := es_Name es |}.

(** [log.Info(msg, kv...)]. *)
Definition LogInfo (msg : string) (kv : list (string * string)) : M unit := fun w =>
  (tt, {| secrets := secrets w; watches := watches w; events := events w;
          logs := logs w ++ [ {| log_msg := msg; log_kv := kv |} ];
          calls := calls w |}).

Definition not_found_error (k : NamespacedName) : error :=
  {| IsNotFound := true; Error := "secrets " +:+ Name k +:+ " not found" |}.

(** Modelled from the spec: the secret store's
    [Get(identity, name) -> payload | NotFound | error] (the [k8s.Client] is
    not part of the sources). *)
Definition client_Get (fl : Faults) (k : NamespacedName)
    : M (option Secret * option error) :=
  record_call (CallGet k) ;;;
  w <<- get_world ;;
  match get_fault fl with
  | Some e => ret (None, Some e)
  | None =>
      match secrets w !! store_key k with
      | Some s => ret (Some s, None)
      | None => ret (None, Some (not_found_error k))
      end
  end.

(** Modelled from the spec: the secret store's
    [Delete(identity, name) -> OK | NotFound | error]. *)
Definition client_Delete (fl : Faults) (k : NamespacedName) : M (option error) :=
  record_call (CallDelete k) ;;;
  w <<- get_world ;;
  match delete_fault fl with
  | Some e => ret (Some e)
  | None =>
      match secrets w !! store_key k with
      | Some _ => set_secrets (delete (store_key k) (secrets w)) ;;; ret None
      | None => ret (Some (not_found_error k))
      end
  end.

(** Modelled from the spec: [certificates.ReconcileCustomCertWatch], the
    Watch Registrar [EnsureWatch(clusterIdentity, purposeKey, reference)]:
    a present reference installs or updates the subscription under the key,
    an absent one removes it; a failure to do so is returned as an error. *)
Definition ReconcileCustomCertWatch (fl : Faults) (watchKey : string)
    (owner : NamespacedName) (tls : SecretRef) : M (option error) :=
  record_call (CallReconcileCustomCertWatch watchKey owner tls) ;;;
  w <<- get_world ;;
  match watch_fault fl with
  | Some e => ret (Some e)
  | None =>
      if decide (SecretName tls = "")
      then set_watches (delete watchKey (watches w)) ;;; ret None
      else set_watches (<[watchKey := {| Watcher := owner; Watched := SecretName tls |}]>
                          (watches w)) ;;; ret None
  end.

(** Modelled from the spec: [certificates.GetSecretFromRef], the lookup half
    of the Custom CA Resolver: an absent reference yields "absent" and no
    error; otherwise the referenced secret is fetched in the owner's
    namespace and a failed fetch (missing secret or backend failure) is
    returned as the error. *)
Definition GetSecretFromRef (fl : Faults) (owner : NamespacedName)
    (ref : SecretRef) : M (option Secret * option error) :=
  if decide (SecretName ref = "") then ret (None, None)
  else
    r <<- client_Get fl {| Namespace := Namespace owner; Name := SecretName ref |} ;;
    match r with
    | (_, Some err) => ret (None, Some err)
    | (s, None) => ret (s, None)
    end.

Section Pass.

(** The parts of the [certificates] and [esv1] packages that the pass calls
    and that are outside the sources. *)

(** [fmt.Sprintf(format)] with no operand after the format. *)
Variable Sprintf : string -> string.

(** [driver.Recorder().Eventf(obj, type, reason, messageFmt)] with no operand
    after the format: the recorder stores [Sprintf(messageFmt)]. *)
Definition Eventf (obj : NamespacedName) (t : EventType) (r : EventReason)
    (messageFmt : string) : M unit := fun w =>
  (tt, {| secrets := secrets w; watches := watches w;
          events := events w ++ [ {| ev_object := obj; ev_type := t;
                                     ev_reason := r;
                                     ev_message := Sprintf messageFmt |} ];
          logs := logs w; calls := calls w |}).

(** [esv1.ESNamer]. *)
Variable ESNamer : Namer.

(** [certificates.CAInternalSecretName(namer, ownerName, caType)]. *)
Variable CAInternalSecretName : Namer -> string -> CAType -> string.

(** [certificates.ParseCustomCASecret(secret)]. *)
Variable ParseCustomCASecret : Secret -> option CA * option error.

(** [certificates.ReconcileCAForOwner(ctx, client, namer, owner, labels,
    caType, rotationParams)], as a function of the secret store it reads and
    writes. *)
Variable ReconcileCAForOwner :
  Namer -> Elasticsearch -> gmap string string -> CAType -> RotationParams ->
  gmap (string * string) Secret ->
  (option CA * option error) * gmap (string * string) Secret.

Definition parse (s : Secret) : M (option CA * option error) :=
  record_call (CallParse s) ;;; ret (ParseCustomCASecret s).

Definition provision (es : Elasticsearch) (labels : gmap string string)
    (rotationParams : RotationParams) : M (option CA * option error) :=
  record_call (CallReconcileCAForOwner (ExtractNamespacedName es)) ;;;
  w <<- get_world ;;
  let (r, s') := ReconcileCAForOwner ESNamer es labels TransportCAType
                   rotationParams (secrets w) in
  set_secrets s' ;;; ret r.

(** ** The functions of the source *)

Definition CustomTransportCertsWatchKey (es : NamespacedName) : string :=
  Suffix ESNamer (Name es) ["custom-transport-certs"].

Definition ReconcileOrRetrieveCA
    (fl : Faults)
    (es : Elasticsearch)
    (labels : gmap string string)
    (globalCA : option CA)
    (rotationParams : RotationParams) : M (option CA * option error) :=
  let esNSN := ExtractNamespacedName es in
  werr <<- ReconcileCustomCertWatch fl (CustomTransportCertsWatchKey esNSN)
             esNSN (Certificate es) ;;
  match werr with
  | Some err => ret (None, Some err)
  | None =>
    r <<- GetSecretFromRef fl esNSN (Certificate es) ;;
    match r with
    | (_, Some err) =>
        Eventf esNSN EventTypeWarning EventReasonUnexpected (Error err) ;;;
        ret (None, Some err)
    | (None, None) =>
        match globalCA with
        | Some g => ret (Some g, None)
        | None => provision es labels rotationParams
        end
    | (Some customCASecret, None) =>
        p <<- parse customCASecret ;;
        match p with
        | (_, Some err) =>
            Eventf esNSN EventTypeWarning EventReasonValidation (Error err) ;;;
            ret (None, Some err)
        | (ca, None) =>
            derr <<- client_Delete fl
                       {| Namespace := Namespace esNSN;
                          Name := CAInternalSecretName ESNamer (Name esNSN)
                                    TransportCAType |} ;;
            match derr with
            | Some err =>
                if negb (IsNotFound err)
                then LogInfo "Failed to garbage collect self-signed transport CA secret, non-critical, continuing"
                       [("namespace", Namespace esNSN); ("name", Name esNSN);
                        ("err", Error err)]
                else ret tt
            | None => ret tt
            end ;;;
            ret (ca, None)
        end
    end
  end.

(** ** The effects of the pass, named *)

Definition gc_secret (es : Elasticsearch) : NamespacedName :=
  {| Namespace := es_Namespace es;
     Name := CAInternalSecretName ESNamer (es_Name es) TransportCAType |}.

Definition custom_secret (es : Elasticsearch) : NamespacedName :=
  {| Namespace := es_Namespace es; Name := SecretName (Certificate es) |}.

Definition watch_call (es : Elasticsearch) : Call :=
  CallReconcileCustomCertWatch
    (CustomTransportCertsWatchKey (ExtractNamespacedName es))
    (ExtractNamespacedName es) (Certificate es).

(** The registry after a successful watch reconciliation for [es]. *)
Definition watches_after (es : Elasticsearch) (ws : gmap string NamedWatch)
    : gmap string NamedWatch :=
  let key := CustomTransportCertsWatchKey (ExtractNamespacedName es) in
  if decide (SecretName (Certificate es) = "") then delete key ws
  else <[key := {| Watcher := ExtractNamespacedName es;
                   Watched := SecretName (Certificate es) |}]> ws.

(** The event that [Eventf(&es, Warning, r, err.Error())] records. *)
Definition warning (es : Elasticsearch) (r : EventReason) (e : error) : Event :=
  {| ev_object := ExtractNamespacedName es; ev_type := EventTypeWarning;
     ev_reason := r; ev_message := Sprintf (Error e) |}.

Definition gc_log (es : Elasticsearch) (e : error) : LogEntry :=
  {| log_msg := "Failed to garbage collect self-signed transport CA secret, non-critical, continuing";
     log_kv := [("namespace", es_Namespace es); ("name", es_Name es);
                ("err", Error e)] |}.

(** The secret store and the log after the garbage collection of the
    self-signed CA secret. *)
Definition gc_secrets (fl : Faults) (es : Elasticsearch)
    (ss : gmap (string * string) Secret) : gmap (string * string) Secret :=
  match delete_fault fl with
  | Some _ => ss
  | None => delete (store_key (gc_secret es)) ss
  end.

Definition gc_logs (fl : Faults) (es : Elasticsearch) : list LogEntry :=
  match delete_fault fl with
  | Some e => if IsNotFound e then [] else [gc_log es e]
  | None => []
  end.

End Pass.

(** ** Concrete collaborators, for running the pass on examples *)

(** Modelled from the spec: the [Suffix] method of [esv1.ESNamer] (the
    [name] package is not part of the sources); a resource name is the
    owner's name plus the fixed purpose suffixes, joined by dashes. *)
Definition dash_join (suffixes : list string) : string :=
  foldr (fun s acc => "-" +:+ s +:+ acc) "" suffixes.

Definition ESNamer : Namer :=
  {| Suffix := fun ownerName suffixes => ownerName +:+ dash_join suffixes |}.

Definition CAType_string (t : CAType) : string :=
  match t with TransportCAType => "transport" | HTTPCAType => "http" end.

(** Modelled from the spec: [certificates.CAInternalSecretName], the
    deterministic name of the self-signed CA secret: the cluster name plus a
    fixed purpose suffix. *)
Definition CAInternalSecretName (namer : Namer) (ownerName : string)
    (caType : CAType) : string :=
  Suffix namer ownerName [CAType_string caType; "ca"; "internal"].

(** Modelled from the spec: [certificates.ParseCustomCASecret]; a secret
    holds a CA when it has a certificate, the key being optional. *)
Definition ParseCustomCASecret (s : Secret) : option CA * option error :=
  match Data s !! "ca.crt" with
  | Some c => (Some {| Cert := c; PrivateKey := default "" (Data s !! "ca.key") |},
               None)
  | None => (None, Some {| IsNotFound := false;
                           Error := "can't parse CA: no certificate" |})
  end.

(** Modelled from the spec: [certificates.ReconcileCAForOwner], the
    Self-Signed Provisioner without its clock: an existing self-signed CA
    secret that parses is returned unchanged, otherwise a new CA is generated
    and persisted under the deterministic name. *)
Definition ReconcileCAForOwner (namer : Namer) (es : Elasticsearch)
    (labels : gmap string string) (caType : CAType) (rp : RotationParams)
    (ss : gmap (string * string) Secret)
    : (option CA * option error) * gmap (string * string) Secret :=
  let k := (es_Namespace es, CAInternalSecretName namer (es_Name es) caType) in
  let fresh := {| Cert := "self-signed " +:+ es_Name es;
                  PrivateKey := "generated" |} in
  match ss !! k with
  | Some s =>
      match ParseCustomCASecret s with
      | (Some ca, None) => ((Some ca, None), ss)
      | _ => ((Some fresh, None),
              <[k := {| Data := {["ca.crt" := Cert fresh]} |}]> ss)
      end
  | None => ((Some fresh, None),
             <[k := {| Data := {["ca.crt" := Cert fresh]} |}]> ss)
  end.

(** The secrets that a history of calls asked the store to delete. *)
Definition deletes (cs : list Call) : list NamespacedName :=
  omap (fun c => match c with CallDelete k => Some k | _ => None end) cs.

(** ** Example inputs *)

Definition es_plain : Elasticsearch :=
  {| es_Namespace := "default"; es_Name := "prod";
     Certificate := {| SecretName := "" |} |}.

Definition es_custom : Elasticsearch :=
  {| es_Namespace := "default"; es_Name := "prod";
     Certificate := {| SecretName := "custom-ca" |} |}.

Definition rotation : RotationParams := {| Validity := 365; RotateBefore := 73 |}.

Definition shared_ca : CA := {| Cert := "shared cert"; PrivateKey := "shared key" |}.

Definition good_secret : Secret :=
  {| Data := {[ "ca.crt" := "custom cert" ]} |}.

Definition bad_secret : Secret :=
  {| Data := {[ "garbage" := "not a certificate" ]} |}.

Definition empty_world : World :=
  {| secrets := ∅; watches := ∅; events := []; logs := []; calls := [] |}.

Definition world_with (s : Secret) : World :=
  {| secrets := {[ ("default", "custom-ca") := s ]};
     watches := ∅; events := []; logs := []; calls := [] |}.

Definition store_unavailable : error :=
  {| IsNotFound := false; Error := "context deadline exceeded" |}.

Definition watch_broken : Faults :=
  {| watch_fault := Some store_unavailable; get_fault := None;
     delete_fault := None |}.

Definition get_broken : Faults :=
  {| watch_fault := None; get_fault := Some store_unavailable;
     delete_fault := None |}.

Definition delete_broken : Faults :=
  {| watch_fault := None; get_fault := None;
     delete_fault := Some store_unavailable |}.

(** The calls made between the world [w] and the later world [w']. *)
Definition new_calls (w w' : World) : list Call :=
  drop (length (calls w)) (calls w').

(** A cluster whose custom CA reference names its own self-signed CA
    secret. *)
Definition es_self_ref : Elasticsearch :=
  {| es_Namespace := "default"; es_Name := "prod";
     Certificate := {| SecretName := "prod-transport-ca-internal" |} |}.

Definition world_self_ref : World :=
  {| secrets := {[ ("default", "prod-transport-ca-internal") := good_secret ]};
     watches := ∅; events := []; logs := []; calls := [] |}.

(** A world in which another cluster has its watch registered. *)
Definition other_watch : NamedWatch :=
  {| Watcher := {| Namespace := "default"; Name := "other" |};
     Watched := "other-ca" |}.

Definition world_with_watch : World :=
  {| secrets := ∅;
     watches := {[ "other-custom-transport-certs" := other_watch ]};
     events := []; logs := []; calls := [] |}.

(** A parser that quotes the certificate it cannot parse. *)
Definition quoting_parser (s : Secret) : option CA * option error :=
  match Data s !! "ca.crt" with
  | Some c => (None, Some {| IsNotFound := false;
                             Error := "can't parse CA certificate " +:+ c |})
  | None => (None, Some {| IsNotFound := false;
                           Error := "can't parse CA: no certificate" |})
  end.

(** A secret whose certificate was stored URL-encoded. *)
Definition escaped_secret : Secret :=
  {| Data := {[ "ca.crt" := "%2D%2DBEGIN CERTIFICATE" ]} |}.

(** The same cluster name in another namespace, with no custom CA. *)
Definition es_plain_elsewhere : Elasticsearch :=
  {| es_Namespace := "staging"; es_Name := "prod";
     Certificate := {| SecretName := "" |} |}.

End Transport.

(** * Service readiness *)

Module Services.
Import Transport.

(** [corev1.EndpointAddress]. *)
Record EndpointAddress := { IP : string }.

(** [corev1.EndpointSubset]. *)
Record EndpointSubset := {
  Addresses : list EndpointAddress;
  NotReadyAddresses : list EndpointAddress
}.

(** [corev1.Endpoints]. *)
Record Endpoints := { Subsets : list EndpointSubset }.

(** [corev1.Service], reduced to its identity. *)
Record Service := { svc_Namespace : string; svc_Name : string }.

(** [k8s.Client], reduced to reading [Endpoints]: [Get] either fails or
    fills in the object. *)
Record Client := { Get : NamespacedName -> error + Endpoints }.

(** The loop [for _, subs := range endpoints.Subsets] with its early return,
    followed by the final [return false, nil]. *)
Fixpoint range_Subsets (subsets : list EndpointSubset) : bool * option error :=
  match subsets with
  | [] => (false, None)
  | subs :: rest =>
      if Nat.ltb 0 (length (Addresses subs)) then (true, None)
      else range_Subsets rest
  end.

Definition IsServiceReady (c : Client) (service : Service) : bool * option error :=
  let namespacedName :=
    {| Namespace := svc_Namespace service; Name := svc_Name service |} in
  match Get c namespacedName with
  | inl err => (false, Some err)
  | inr endpoints => range_Subsets (Subsets endpoints)
  end.

(** ** Example inputs *)

Definition ready_endpoints : Endpoints :=
  {| Subsets := [ {| Addresses := []; NotReadyAddresses := [ {| IP := "10.0.0.7" |} ] |};
                  {| Addresses := [ {| IP := "10.0.0.8" |} ];
                     NotReadyAddresses := [] |} ] |}.

Definition unready_endpoints : Endpoints :=
  {| Subsets := [ {| Addresses := []; NotReadyAddresses := [ {| IP := "10.0.0.7" |} ] |} ] |}.

(** A client that knows the endpoints of two services and fails with
    NotFound for any other. *)
Definition example_client : Client :=
  {| Get := fun k =>
       if decide (Name k = "prod-es-http") then inr ready_endpoints
       else if decide (Name k = "staging-es-http") then inr unready_endpoints
       else inl (not_found_error k) |}.

(** ** The external service *)

(** [corev1.ServicePort]. *)
Record ServicePort := { port_Name : string; Protocol : string; Port : Z }.

(** [corev1.ServiceSpec]; the Go types [ServiceType], [ServiceAffinity] and
    [ServiceExternalTrafficPolicyType] are string types, the empty string
    being their zero value. *)
Record ServiceSpec := {
  Selector : gmap string string;
  Ports : list ServicePort;
  SessionAffinity : string;
  svc_Type : string;
  ExternalTrafficPolicy : string
}.

(** [metav1.ObjectMeta]. *)
Record ObjectMeta := {
  meta_Namespace : string;
  meta_Name : string;
  Labels : gmap string string;
  Annotations : gmap string string
}.

(** [corev1.Service] with the metadata and the spec that
    [NewExternalService] fills in. *)
Record ServiceObject := { Meta : ObjectMeta; Spec : ServiceSpec }.

(** The zero value [corev1.Service{}]. *)
Definition zero_Service : ServiceObject :=
  {| Meta := {| meta_Namespace := ""; meta_Name := ""; Labels := ∅;
                Annotations := ∅ |};
     Spec := {| Selector := ∅; Ports := []; SessionAffinity := "";
                svc_Type := ""; ExternalTrafficPolicy := "" |} |}.

Definition ProtocolTCP : string := "TCP".
Definition ServiceAffinityNone : string := "None".
Definition ServiceTypeClusterIP : string := "ClusterIP".
Definition ServiceTypeNodePort : string := "NodePort".
Definition ServiceTypeLoadBalancer : string := "LoadBalancer".
Definition ServiceExternalTrafficPolicyTypeCluster : string := "Cluster".

(** [v1alpha1.Elasticsearch], reduced to the fields read here: its identity,
    [Spec.HTTP.Service.Metadata.Annotations] and
    [Spec.HTTP.Service.Spec.Type]. *)
Record ElasticsearchV1alpha1 := {
  v1_Namespace : string;
  v1_Name : string;
  HTTP_Service_Annotations : gmap string string;
  HTTP_Service_Type : string
}.

(** [k8s.Client], reading a [Service]: [Get] is handed the object to fill
    in and returns it, as far as it was filled in, with its error. *)
Record ServiceClient := {
  GetService : NamespacedName -> ServiceObject -> ServiceObject * option error
}.

(** The identity under which a service object is stored. *)
Definition service_key (svc : ServiceObject) : NamespacedName :=
  {| Namespace := meta_Namespace (Meta svc); Name := meta_Name (Meta svc) |}.

(** [strconv.Itoa]. *)
Definition Itoa (i : Z) : string :=
  DecimalString.NilZero.string_of_int (Z.to_int i).

Definition globalServiceSuffix : string := ".svc.cluster.local".

Section ExternalService.

(** The parts of the operator's other packages used here, all outside the
    sources. *)

(** [name.HTTPService]. *)
Variable HTTPService : string -> string.

(** [network.HTTPPort]. *)
Variable HTTPPort : Z.

(** [label.NewLabels]. *)
Variable NewLabels : NamespacedName -> gmap string string.

(** [common.GetServiceType]. *)
Variable GetServiceType : string -> string.

(** [stringsutil.Concat]. *)
Variable Concat : list string -> string.

Definition ExternalServiceName (esName : string) : string :=
  HTTPService esName.

Definition ExternalServiceURL (es : ElasticsearchV1alpha1) : string :=
  Concat ["https://"; ExternalServiceName (v1_Name es); "."; v1_Namespace es;
          globalServiceSuffix; ":"; Itoa HTTPPort].

Definition NewExternalService (es : ElasticsearchV1alpha1) : ServiceObject :=
  let nsn := {| Namespace := v1_Namespace es; Name := v1_Name es |} in
  let svc :=
    {| Meta := {| meta_Namespace := v1_Namespace es;
                  meta_Name := ExternalServiceName (v1_Name es);
                  Labels := NewLabels nsn;
                  Annotations := HTTP_Service_Annotations es |};
       Spec := {| Selector := NewLabels nsn;
                  Ports := [ {| port_Name := "https"; Protocol := ProtocolTCP;
                                Port := HTTPPort |} ];
                  SessionAffinity := ServiceAffinityNone;
                  svc_Type := GetServiceType (HTTP_Service_Type es);
                  ExternalTrafficPolicy := "" |} |} in
  if decide (svc_Type (Spec svc) <> ServiceTypeClusterIP)
  then {| Meta := Meta svc;
          Spec := {| Selector := Selector (Spec svc);
                     Ports := Ports (Spec svc);
                     SessionAffinity := SessionAffinity (Spec svc);
                     svc_Type := svc_Type (Spec svc);
                     ExternalTrafficPolicy :=
                       ServiceExternalTrafficPolicyTypeCluster |} |}
  else svc.

Definition GetExternalService (c : ServiceClient) (es : ElasticsearchV1alpha1)
    : ServiceObject * option error :=
  let svc := zero_Service in
  let namespacedName :=
    {| Namespace := v1_Namespace es;
       Name := ExternalServiceName (v1_Name es) |} in
  match GetService c namespacedName svc with
  | (_, Some err) => (zero_Service, Some err)
  | (svc, None) => (svc, None)
  end.

End ExternalService.

(** Modelled from the spec: a client over an object store,
    [Get(identity, name) -> payload | NotFound | error]: a stored object is
    copied into the object handed in, a missing one is a NotFound error that
    leaves it as it was. *)
Definition store_client (m : gmap (string * string) ServiceObject)
    : ServiceClient :=
  {| GetService := fun k obj =>
       match m !! store_key k with
       | Some s => (s, None)
       | None => (obj, Some {| IsNotFound := true;
                               Error := "services " +:+ Name k +:+ " not found" |})
       end |}.

(** Two views of the same ready address, with the subsets in a different
    order and different addresses that are not ready. *)
Definition shuffled_endpoints : Endpoints :=
  {| Subsets := [ {| Addresses := [ {| IP := "10.0.0.8" |} ];
                     NotReadyAddresses := [ {| IP := "10.0.0.9" |} ] |};
                  {| Addresses := []; NotReadyAddresses := [] |} ] |}.

End Services.

(** * Properties of the printer *)

Module fmtSpec.
Import fmt.
Import Stdlib.Strings.Ascii.

Local Abbreviation list_ascii_of_string :=
  Stdlib.Strings.String.list_ascii_of_string.
Local Abbreviation string_of_list_ascii :=
  Stdlib.Strings.String.string_of_list_ascii.

Lemma skip_flags_length (l : list ascii) :
  length (skip_flags l) <= length l.
Proof.
  induction l as [|c r IH]; cbn; [lia |].
  destruct (is_flag c); cbn; lia.
Qed.

Lemma parsenum_from_length (l : list ascii) (num : N) (isnum : bool) :
  length (parsenum_from num isnum l).2 <= length l.
Proof.
  revert num isnum. induction l as [|c r IH]; intros num isnum; cbn; [lia |].
  destruct (between 48 57 c); cbn; [| lia].
  destruct (1000000 <? num)%N; cbn; [lia |].
  specialize (IH (num * 10 + (byte c - 48))%N true). lia.
Qed.

Lemma argNumber_length (l : list ascii) :
  length (argNumber l).1.1 <= length l.
Proof.
  unfold argNumber. destruct l as [|c r]; cbn; [lia |].
  destruct (decide (c = "["%char)); cbn; [| lia].
  destruct (parseArgNumber (c :: r)) as [wid ok]. cbn.
  rewrite length_drop. cbn. lia.
Qed.

Lemma decode_rune_length (l : list ascii) :
  length (decode_rune l).2 <= length l.
Proof.
  unfold decode_rune. destruct l as [|c0 r]; cbn; [lia |].
  destruct (byte c0 <? 128)%N; cbn; [lia |].
  repeat match goal with
         | |- context [match ?x with _ => _ end] => destruct x; cbn; try lia
         end.
Qed.

Lemma directive_length (l : list ascii) :
  length (directive l).2 <= length l.
Proof.
  unfold directive.
  pose proof (skip_flags_length l) as H1.
  pose proof (argNumber_length (skip_flags l)) as H2.
  destruct (argNumber (skip_flags l)) as [[l2 ai1] bad1]. cbn in H2.
  assert (Hw : forall outw l3 ai2 bad2,
    match l2 with
    | c :: r =>
        if decide (c = "*"%char) then (badWidthString, r, false, false)
        else let '(_, widPresent, r') := parsenum l2 in
             ([], r', ai1, ai1 && widPresent)
    | [] => ([], [], ai1, false)
    end = (outw, l3, ai2, bad2) -> length l3 <= length l2).
  { intros outw l3 ai2 bad2. destruct l2 as [|c r]; [intros [= <- <- <- <-]; cbn; lia |].
    destruct (decide (c = "*"%char)); [intros [= <- <- <- <-]; cbn; lia |].
    pose proof (parsenum_from_length (c :: r) 0%N false) as Hp.
    unfold parsenum. destruct (parsenum_from 0 false (c :: r)) as [[n0 wp] r'].
    intros [= <- <- <- <-]. exact Hp. }
  destruct (match l2 with c :: r => _ | [] => _ end) as [[[outw l3] ai2] bad2] eqn:Ew.
  specialize (Hw _ _ _ _ eq_refl).
  assert (Hp : forall outp l4 ai3 bad3,
    match l3 with
    | c :: r =>
        if decide (c = "."%char) then
          let '(r1, found, bad) := argNumber r in
          match r1 with
          | c' :: r2 =>
              if decide (c' = "*"%char)
              then (badPrecString, r2, false, ai2 || bad)
              else let '(_, _, r3) := parsenum r1 in
                   ([], r3, found, ai2 || bad)
          | [] => ([], [], found, ai2 || bad)
          end
        else ([], l3, ai2, false)
    | [] => ([], [], ai2, false)
    end = (outp, l4, ai3, bad3) -> length l4 <= length l3).
  { intros outp l4 ai3 bad3. destruct l3 as [|c r]; [intros [= <- <- <- <-]; cbn; lia |].
    destruct (decide (c = "."%char)); [| intros [= <- <- <- <-]; cbn; lia].
    pose proof (argNumber_length r) as Ha.
    destruct (argNumber r) as [[r1 found] bad]. cbn in Ha.
    destruct r1 as [|c' r2]; [intros [= <- <- <- <-]; cbn; lia |].
    destruct (decide (c' = "*"%char)); [intros [= <- <- <- <-]; cbn in *; lia |].
    pose proof (parsenum_from_length (c' :: r2) 0%N false) as Hq.
    unfold parsenum. destruct (parsenum_from 0 false (c' :: r2)) as [[n0 pp] r3].
    intros [= <- <- <- <-]. cbn in *. lia. }
  destruct (match l3 with c :: r => _ | [] => _ end) as [[[outp l4] ai3] bad3] eqn:Ep.
  specialize (Hp _ _ _ _ eq_refl).
  assert (H5 : forall l5 bad4,
    (if ai3 then (l4, false)
     else let '(r, _, bad) := argNumber l4 in (r, bad)) = (l5, bad4) ->
    length l5 <= length l4).
  { intros l5 bad4. destruct ai3; [intros [= <- <-]; lia |].
    pose proof (argNumber_length l4) as Ha.
    destruct (argNumber l4) as [[r f] b]. intros [= <- <-]. exact Ha. }
  destruct (if ai3 then _ else _) as [l5 bad4] eqn:E5.
  specialize (H5 _ _ eq_refl).
  destruct l5 as [|c5 r5]; [cbn; lia |].
  pose proof (decode_rune_length (c5 :: r5)) as Hd.
  destruct (decode_rune (c5 :: r5)) as [verb r]. cbn in *. lia.
Qed.

(** More fuel than the length of the format changes nothing. *)
Lemma doPrintf_fuel (n m : nat) (l : list ascii) :
  length l <= n -> length l <= m -> doPrintf n l = doPrintf m l.
Proof.
  revert m l. induction n as [n IH] using lt_wf_ind. intros m l Hn Hm.
  destruct l as [|c r]; [destruct n, m; reflexivity |].
  destruct n as [|n]; [cbn in Hn; lia |]. destruct m as [|m]; [cbn in Hm; lia |].
  cbn in *. destruct (decide (c = "%"%char)).
  - pose proof (directive_length r) as Hd.
    destruct (directive r) as [out r']. cbn in Hd. f_equal.
    apply IH; lia.
  - f_equal. apply IH; lia.
Qed.




End fmtSpec.

(** * Properties of the transport CA pass *)

Module TransportSpec.
Import Transport.

Section Pass.

Variable Sprintf : string -> string.
Variable ESNamer : Namer.
Variable CAInternalSecretName : Namer -> string -> CAType -> string.
Variable ParseCustomCASecret : Secret -> option CA * option error.
Variable ReconcileCAForOwner :
  Namer -> Elasticsearch -> gmap string string -> CAType -> RotationParams ->
  gmap (string * string) Secret ->
  (option CA * option error) * gmap (string * string) Secret.

Local Abbreviation ReconcileOrRetrieveCA :=
  (ReconcileOrRetrieveCA Sprintf ESNamer CAInternalSecretName
     ParseCustomCASecret ReconcileCAForOwner).
Local Abbreviation warning := (warning Sprintf).
Local Abbreviation watch_call := (watch_call ESNamer).
Local Abbreviation watches_after := (watches_after ESNamer).
Local Abbreviation gc_secret := (gc_secret ESNamer CAInternalSecretName).
Local Abbreviation gc_secrets := (gc_secrets ESNamer CAInternalSecretName).

(** ** Symbolic execution of the pass, one lemma per return path *)

Ltac run_pass :=
  unfold ReconcileOrRetrieveCA, ReconcileCustomCertWatch, GetSecretFromRef,
    client_Get, client_Delete, provision, parse, Eventf, LogInfo, bind, ret,
    record_call, set_secrets, set_watches, get_world, watches_after,
    watch_call, custom_secret, gc_secret, warning, gc_log; cbn.

Lemma pass_watch_failed fl es labels globalCA rp w e :
  watch_fault fl = Some e ->
  ReconcileOrRetrieveCA fl es labels globalCA rp w =
    ((None, Some e),
     {| secrets := secrets w; watches := watches w; events := events w;
        logs := logs w; calls := calls w ++ [watch_call es] |}).
Proof. intros Hw. run_pass. rewrite Hw. reflexivity. Qed.

Lemma pass_shared fl es labels g rp w :
  watch_fault fl = None ->
  SecretName (Certificate es) = "" ->
  ReconcileOrRetrieveCA fl es labels (Some g) rp w =
    ((Some g, None),
     {| secrets := secrets w; watches := watches_after es (watches w);
        events := events w; logs := logs w;
        calls := calls w ++ [watch_call es] |}).
Proof.
  intros Hw Hn. run_pass. rewrite Hw.
  destruct (decide (SecretName (Certificate es) = "")); [reflexivity | contradiction].
Qed.

Lemma pass_self_signed fl es labels rp w :
  watch_fault fl = None ->
  SecretName (Certificate es) = "" ->
  ReconcileOrRetrieveCA fl es labels None rp w =
    (fst (ReconcileCAForOwner ESNamer es labels TransportCAType rp (secrets w)),
     {| secrets := snd (ReconcileCAForOwner ESNamer es labels TransportCAType rp
                          (secrets w));
        watches := watches_after es (watches w);
        events := events w; logs := logs w;
        calls := calls w ++ [watch_call es;
                             CallReconcileCAForOwner (ExtractNamespacedName es)] |}).
Proof.
  intros Hw Hn. run_pass. rewrite Hw.
  destruct (decide (SecretName (Certificate es) = "")); [| contradiction].
  cbn. destruct (ReconcileCAForOwner _ _ _ _ _ _) as [r s']. cbn.
  rewrite <- app_assoc. reflexivity.
Qed.

Lemma pass_fetch_failed fl es labels globalCA rp w e :
  watch_fault fl = None ->
  SecretName (Certificate es) <> "" ->
  get_fault fl = Some e ->
  ReconcileOrRetrieveCA fl es labels globalCA rp w =
    ((None, Some e),
     {| secrets := secrets w; watches := watches_after es (watches w);
        events := events w ++ [warning es EventReasonUnexpected e];
        logs := logs w;
        calls := calls w ++ [watch_call es; CallGet (custom_secret es)] |}).
Proof.
  intros Hw Hn Hg. run_pass. rewrite Hw.
  destruct (decide (SecretName (Certificate es) = "")); [contradiction |].
  cbn. rewrite Hg. cbn. rewrite <- app_assoc. reflexivity.
Qed.

Lemma pass_secret_missing fl es labels globalCA rp w :
  watch_fault fl = None ->
  SecretName (Certificate es) <> "" ->
  get_fault fl = None ->
  secrets w !! store_key (custom_secret es) = None ->
  ReconcileOrRetrieveCA fl es labels globalCA rp w =
    ((None, Some (not_found_error (custom_secret es))),
     {| secrets := secrets w; watches := watches_after es (watches w);
        events := events w ++ [warning es EventReasonUnexpected
                                 (not_found_error (custom_secret es))];
        logs := logs w;
        calls := calls w ++ [watch_call es; CallGet (custom_secret es)] |}).
Proof.
  intros Hw Hn Hg Hs. run_pass. rewrite Hw.
  destruct (decide (SecretName (Certificate es) = "")); [contradiction |].
  cbn. rewrite Hg. unfold custom_secret, store_key in Hs. cbn in Hs.
  unfold store_key. cbn. rewrite Hs. cbn. rewrite <- app_assoc. reflexivity.
Qed.

Lemma pass_parse_failed fl es labels globalCA rp w s x e :
  watch_fault fl = None ->
  SecretName (Certificate es) <> "" ->
  get_fault fl = None ->
  secrets w !! store_key (custom_secret es) = Some s ->
  ParseCustomCASecret s = (x, Some e) ->
  ReconcileOrRetrieveCA fl es labels globalCA rp w =
    ((None, Some e),
     {| secrets := secrets w; watches := watches_after es (watches w);
        events := events w ++ [warning es EventReasonValidation e];
        logs := logs w;
        calls := calls w ++ [watch_call es; CallGet (custom_secret es);
                             CallParse s] |}).
Proof.
  intros Hw Hn Hg Hs Hp. run_pass. rewrite Hw.
  destruct (decide (SecretName (Certificate es) = "")); [contradiction |].
  cbn. rewrite Hg. unfold custom_secret, store_key in Hs. cbn in Hs.
  unfold store_key. cbn. rewrite Hs. cbn. rewrite Hp. cbn.
  rewrite <- !app_assoc. reflexivity.
Qed.

Lemma pass_custom fl es labels globalCA rp w s ca :
  watch_fault fl = None ->
  SecretName (Certificate es) <> "" ->
  get_fault fl = None ->
  secrets w !! store_key (custom_secret es) = Some s ->
  ParseCustomCASecret s = (ca, None) ->
  ReconcileOrRetrieveCA fl es labels globalCA rp w =
    ((ca, None),
     {| secrets := gc_secrets fl es (secrets w);
        watches := watches_after es (watches w);
        events := events w;
        logs := logs w ++ gc_logs fl es;
        calls := calls w ++ [watch_call es; CallGet (custom_secret es);
                             CallParse s; CallDelete (gc_secret es)] |}).
Proof.
  intros Hw Hn Hg Hs Hp. run_pass. rewrite Hw.
  destruct (decide (SecretName (Certificate es) = "")); [contradiction |].
  cbn. rewrite Hg. unfold custom_secret, store_key in Hs. cbn in Hs.
  unfold store_key. cbn. rewrite Hs. cbn. rewrite Hp. cbn.
  unfold gc_secrets, gc_logs, gc_secret, store_key. cbn.
  rewrite <- !app_assoc. cbn.
  destruct (delete_fault fl) as [e|]; cbn.
  - destruct (IsNotFound e); cbn; rewrite ?app_nil_r; reflexivity.
  - destruct (secrets w !! (es_Namespace es,
                CAInternalSecretName ESNamer (es_Name es) TransportCAType))
      as [s0|] eqn:Hd; cbn; rewrite ?app_nil_r.
    + reflexivity.
    + rewrite delete_id by exact Hd. reflexivity.
Qed.

(** ** The claims *)

(** C1. In a pass whose watch reconciliation and custom-secret fetch succeed:
    a referenced custom CA secret that is present and parses gives exactly
    the parsed CA; with no custom CA reference and a shared CA supplied the
    result is exactly the shared CA; with no custom CA reference and no
    shared CA the result is the result of the self-signed provisioner.
    The three cases exclude one another, so one source decides the pass. *)
Theorem ca_precedence fl es labels globalCA rp w :
  watch_fault fl = None ->
  (forall s ca,
      SecretName (Certificate es) <> "" ->
      get_fault fl = None ->
      secrets w !! store_key (custom_secret es) = Some s ->
      ParseCustomCASecret s = (ca, None) ->
      fst (ReconcileOrRetrieveCA fl es labels globalCA rp w) = (ca, None)) /\
  (forall g,
      SecretName (Certificate es) = "" ->
      globalCA = Some g ->
      fst (ReconcileOrRetrieveCA fl es labels globalCA rp w) = (Some g, None)) /\
  (SecretName (Certificate es) = "" ->
   globalCA = None ->
   fst (ReconcileOrRetrieveCA fl es labels globalCA rp w) =
     fst (ReconcileCAForOwner ESNamer es labels TransportCAType rp (secrets w))).
Proof.
  intros Hw. split; [| split].
  - intros s ca Hn Hg Hs Hp.
    rewrite (pass_custom _ _ _ _ _ _ s ca) by assumption. reflexivity.
  - intros g Hn ->. rewrite pass_shared by assumption. reflexivity.
  - intros Hn ->. rewrite pass_self_signed by assumption. reflexivity.
Qed.

(** X15. When the custom CA secret is fetched but does not parse, the pass
    emits exactly one warning event of the validation category, whose
    message is what the printer makes of the parse error's text used as the
    format; it returns the parse error and leaves the secret store as it
    was: nothing is created, modified or deleted. *)
Theorem parse_failure_aborts fl es labels globalCA rp w s x e :
  watch_fault fl = None ->
  SecretName (Certificate es) <> "" ->
  get_fault fl = None ->
  secrets w !! store_key (custom_secret es) = Some s ->
  ParseCustomCASecret s = (x, Some e) ->
  let r := ReconcileOrRetrieveCA fl es labels globalCA rp w in
  fst r = (None, Some e) /\
  events (snd r) = events w ++
    [ {| ev_object := ExtractNamespacedName es; ev_type := EventTypeWarning;
         ev_reason := EventReasonValidation;
         ev_message := Sprintf (Error e) |} ] /\
  secrets (snd r) = secrets w /\
  deletes (calls (snd r)) = deletes (calls w) /\
  CallReconcileCAForOwner (ExtractNamespacedName es) ∉
    drop (length (calls w)) (calls (snd r)).
Proof.
  intros Hw Hn Hg Hs Hp r. subst r.
  rewrite (pass_parse_failed _ _ _ _ _ _ s x e) by assumption. cbn.
  repeat split.
  - unfold deletes. rewrite omap_app. cbn. apply app_nil_r.
  - rewrite drop_app_length. intros Hin.
    repeat (apply elem_of_cons in Hin as [Hin | Hin]; [discriminate Hin |]).
    inversion Hin.
Qed.

(** C3, as amended. When a custom CA reference is configured but the
    referenced secret is not in the store, the pass returns a non-nil error
    and leaves the secret store as it was; and when the watch reconciliation
    of that pass succeeds, it emits exactly one event: a warning of reason
    Unexpected on the cluster, made from that error's text. *)
Theorem missing_secret_is_an_error fl es labels globalCA rp w :
  SecretName (Certificate es) <> "" ->
  secrets w !! store_key (custom_secret es) = None ->
  let r := ReconcileOrRetrieveCA fl es labels globalCA rp w in
  exists err,
    fst r = (None, Some err) /\
    secrets (snd r) = secrets w /\
    (watch_fault fl = None ->
     events (snd r) = events w ++
       [ {| ev_object := ExtractNamespacedName es; ev_type := EventTypeWarning;
            ev_reason := EventReasonUnexpected;
            ev_message := Sprintf (Error err) |} ]).
Proof.
  intros Hn Hs r. subst r.
  destruct (watch_fault fl) as [e0|] eqn:Hw.
  { exists e0. rewrite (pass_watch_failed _ _ _ _ _ _ e0) by assumption.
    cbn. split; [reflexivity | split; [reflexivity | discriminate]]. }
  destruct (get_fault fl) as [e|] eqn:Hg.
  - exists e. rewrite (pass_fetch_failed _ _ _ _ _ _ e) by assumption.
    cbn. auto.
  - exists (not_found_error (custom_secret es)).
    rewrite pass_secret_missing by assumption. cbn. auto.
Qed.

(** C4. When the custom CA secret is present and parses, the pass asks the
    store exactly once to delete a secret, namely the deterministic
    self-signed CA secret of this cluster.  Whatever that delete answers,
    the pass returns the parsed CA with a nil error and emits no event: a
    NotFound answer leaves no trace, any other failure is only logged, and a
    successful delete removes the secret. *)
Theorem gc_is_best_effort fl es labels globalCA rp w s ca :
  watch_fault fl = None ->
  SecretName (Certificate es) <> "" ->
  get_fault fl = None ->
  secrets w !! store_key (custom_secret es) = Some s ->
  ParseCustomCASecret s = (ca, None) ->
  let r := ReconcileOrRetrieveCA fl es labels globalCA rp w in
  fst r = (ca, None) /\
  deletes (calls (snd r)) = deletes (calls w) ++ [gc_secret es] /\
  events (snd r) = events w /\
  (forall e, delete_fault fl = Some e -> IsNotFound e = true ->
     logs (snd r) = logs w /\ secrets (snd r) = secrets w) /\
  (forall e, delete_fault fl = Some e -> IsNotFound e = false ->
     logs (snd r) = logs w ++ [gc_log es e] /\ secrets (snd r) = secrets w) /\
  (delete_fault fl = None ->
     logs (snd r) = logs w /\
     secrets (snd r) = delete (store_key (gc_secret es)) (secrets w)).
Proof.
  intros Hw Hn Hg Hs Hp r. subst r.
  rewrite (pass_custom _ _ _ _ _ _ s ca) by assumption. cbn.
  split; [reflexivity |]. split.
  { unfold deletes. rewrite omap_app. reflexivity. }
  split; [reflexivity |].
  unfold Transport.gc_secrets, gc_logs.
  split; [| split].
  - intros e -> ->. rewrite app_nil_r. auto.
  - intros e -> ->. auto.
  - intros ->. rewrite app_nil_r. auto.
Qed.

(** C5. When the reconciliation of the dynamic watch fails, the pass returns
    that error at once: no CA is returned, the store, the watch registry,
    the events and the log are as before, and the watch reconciliation is
    the only call made (no secret is fetched, parsed, created or deleted). *)
Theorem watch_failure_is_fatal fl es labels globalCA rp w e :
  watch_fault fl = Some e ->
  let r := ReconcileOrRetrieveCA fl es labels globalCA rp w in
  fst r = (None, Some e) /\
  secrets (snd r) = secrets w /\
  watches (snd r) = watches w /\
  events (snd r) = events w /\
  logs (snd r) = logs w /\
  calls (snd r) = calls w ++ [watch_call es].
Proof.
  intros Hw r. subst r. rewrite (pass_watch_failed _ _ _ _ _ _ e) by assumption.
  cbn. auto 10.
Qed.

(** C6, as amended. A pass that fails with a transient error returns that
    error unchanged.  It emits no event when the failure is in the watch
    reconciliation or in the self-signed provisioner; when the failure
    occurs while the referenced custom CA secret is fetched, it emits
    exactly one event, a warning of reason Unexpected made from the error's
    text. *)
Theorem transient_errors_are_returned_unchanged fl es labels globalCA rp w :
  let r := ReconcileOrRetrieveCA fl es labels globalCA rp w in
  (forall e, watch_fault fl = Some e ->
     fst r = (None, Some e) /\ events (snd r) = events w) /\
  (forall e, watch_fault fl = None ->
     SecretName (Certificate es) <> "" ->
     get_fault fl = Some e ->
     fst r = (None, Some e) /\
     events (snd r) = events w ++
       [ {| ev_object := ExtractNamespacedName es; ev_type := EventTypeWarning;
            ev_reason := EventReasonUnexpected;
            ev_message := Sprintf (Error e) |} ]) /\
  (watch_fault fl = None ->
   SecretName (Certificate es) = "" ->
   globalCA = None ->
   fst r = fst (ReconcileCAForOwner ESNamer es labels TransportCAType rp
                  (secrets w)) /\
   events (snd r) = events w).
Proof.
  intros r. subst r. split; [| split].
  - intros e Hw. rewrite (pass_watch_failed _ _ _ _ _ _ e) by assumption.
    cbn. auto.
  - intros e Hw Hn Hg.
    rewrite (pass_fetch_failed _ _ _ _ _ _ e) by assumption. cbn. auto.
  - intros Hw Hn ->. rewrite pass_self_signed by assumption. cbn. auto.
Qed.

(** C8. When a shared CA is supplied and no custom CA reference is
    configured, the pass does not touch the secret store: the store is
    unchanged and the watch reconciliation is the only call made (no secret
    is fetched, deleted or provisioned); and once past the watch
    reconciliation the pass returns exactly the shared CA. *)
Theorem shared_ca_writes_nothing fl es labels g rp w :
  SecretName (Certificate es) = "" ->
  let r := ReconcileOrRetrieveCA fl es labels (Some g) rp w in
  secrets (snd r) = secrets w /\
  calls (snd r) = calls w ++ [watch_call es] /\
  (watch_fault fl = None -> fst r = (Some g, None)).
Proof.
  intros Hn r. subst r.
  destruct (watch_fault fl) as [e0|] eqn:Hw.
  - rewrite (pass_watch_failed _ _ _ _ _ _ e0) by assumption. cbn.
    split; [reflexivity | split; [reflexivity | discriminate]].
  - rewrite pass_shared by assumption. cbn. auto.
Qed.

(** C9. In every pass the watch reconciliation is the first call, so it
    precedes the fetch of the custom CA secret; and unless the watch
    reconciliation itself fails, every return path leaves under the watch
    key exactly the registration that the configured reference asks for:
    none for an absent reference, the referenced secret otherwise. *)
Theorem watch_is_reconciled_first fl es labels globalCA rp w :
  let r := ReconcileOrRetrieveCA fl es labels globalCA rp w in
  let key := CustomTransportCertsWatchKey ESNamer (ExtractNamespacedName es) in
  (exists rest,
      calls (snd r) = calls w ++ watch_call es :: rest /\
      Forall (fun c => forall k o ref, c <> CallReconcileCustomCertWatch k o ref)
        rest) /\
  (watch_fault fl = None ->
   watches (snd r) !! key =
     if decide (SecretName (Certificate es) = "") then None
     else Some {| Watcher := ExtractNamespacedName es;
                  Watched := SecretName (Certificate es) |}).
Proof.
  intros r key. subst r key.
  assert (Hafter : forall ws,
    watches_after es ws !! CustomTransportCertsWatchKey ESNamer (ExtractNamespacedName es) =
      if decide (SecretName (Certificate es) = "") then None
      else Some {| Watcher := ExtractNamespacedName es;
                   Watched := SecretName (Certificate es) |}).
  { intros ws. unfold Transport.watches_after.
    destruct (decide (SecretName (Certificate es) = "")).
    - apply lookup_delete_eq.
    - apply lookup_insert_eq. }
  destruct (watch_fault fl) as [e|] eqn:Hw.
  { rewrite (pass_watch_failed _ _ _ _ _ _ e) by assumption. cbn.
    split; [exists []; auto | discriminate]. }
  destruct (decide (SecretName (Certificate es) = "")) as [Hn|Hn].
  { destruct globalCA as [g|].
    - rewrite pass_shared by assumption. cbn.
      split; [exists []; auto | intros _; apply Hafter].
    - rewrite pass_self_signed by assumption. cbn.
      split; [| intros _; apply Hafter].
      eexists. split; [reflexivity |].
      repeat constructor; discriminate. }
  assert (Hkey : forall ws, watches_after es ws !!
            CustomTransportCertsWatchKey ESNamer (ExtractNamespacedName es) =
            Some {| Watcher := ExtractNamespacedName es;
                    Watched := SecretName (Certificate es) |}).
  { exact Hafter. }
  destruct (get_fault fl) as [e|] eqn:Hg.
  { rewrite (pass_fetch_failed _ _ _ _ _ _ e) by assumption. cbn.
    split; [| intros _; apply Hkey].
    eexists. split; [reflexivity |]. repeat constructor; discriminate. }
  destruct (secrets w !! store_key (custom_secret es)) as [s|] eqn:Hs.
  2:{ rewrite pass_secret_missing by assumption. cbn.
      split; [| intros _; apply Hkey].
      eexists. split; [reflexivity |]. repeat constructor; discriminate. }
  destruct (ParseCustomCASecret s) as [x [e|]] eqn:Hp.
  - rewrite (pass_parse_failed _ _ _ _ _ _ s x e) by assumption. cbn.
    split; [| intros _; apply Hkey].
    eexists. split; [reflexivity |]. repeat constructor; discriminate.
  - rewrite (pass_custom _ _ _ _ _ _ s x) by assumption. cbn.
    split; [| intros _; apply Hkey].
    eexists. split; [reflexivity |]. repeat constructor; discriminate.
Qed.

(** ** Further properties of the pass, over all its return paths *)

Ltac pass_paths fl es globalCA w :=
  let e := fresh "e" in
  let g := fresh "g" in
  let s := fresh "s" in
  let x := fresh "x" in
  destruct (watch_fault fl) as [e|] eqn:Hw;
  [ rewrite (pass_watch_failed _ _ _ _ _ _ e) by assumption
  | destruct (decide (SecretName (Certificate es) = "")) as [Hn|Hn];
    [ destruct globalCA as [g|];
      [ rewrite pass_shared by assumption
      | rewrite pass_self_signed by assumption ]
    | destruct (get_fault fl) as [e|] eqn:Hg;
      [ rewrite (pass_fetch_failed _ _ _ _ _ _ e) by assumption
      | destruct (secrets w !! store_key (custom_secret es)) as [s|] eqn:Hs;
        [ destruct (ParseCustomCASecret s) as [x [e|]] eqn:Hp;
          [ rewrite (pass_parse_failed _ _ _ _ _ _ s x e) by assumption
          | rewrite (pass_custom _ _ _ _ _ _ s x) by assumption ]
        | rewrite pass_secret_missing by assumption ] ] ] ].

Ltac in_calls H :=
  repeat (apply elem_of_cons in H as [H | H]; [try discriminate H |]);
  try (apply elem_of_nil in H; contradiction).

(** X1. The self-signed provisioner runs exactly in the passes that get past
    the watch reconciliation with no custom CA reference configured and no
    shared CA supplied; in every other pass it is not called. *)
Theorem provisioner_is_the_last_resort fl es labels globalCA rp w :
  (exists owner,
      CallReconcileCAForOwner owner ∈
        new_calls w (snd (ReconcileOrRetrieveCA fl es labels globalCA rp w)))
  <-> watch_fault fl = None /\ SecretName (Certificate es) = "" /\
      globalCA = None.
Proof.
  unfold new_calls.
  pass_paths fl es globalCA w; cbn; rewrite drop_app_length;
    (split; [intros (owner & Hin); in_calls Hin; auto
            | intros (H1 & H2 & H3); try congruence]).
  eexists. rewrite !elem_of_cons. right. left. reflexivity.
Qed.

(** X2. The only secret the pass ever asks the store to delete is the
    self-signed CA secret of this cluster, and it asks for that exactly in
    the passes where the referenced custom CA secret was fetched and parsed
    without error. *)
Theorem delete_only_garbage_collects fl es labels globalCA rp w :
  let r := ReconcileOrRetrieveCA fl es labels globalCA rp w in
  (forall k, CallDelete k ∈ new_calls w (snd r) -> k = gc_secret es) /\
  (CallDelete (gc_secret es) ∈ new_calls w (snd r) <->
   watch_fault fl = None /\ SecretName (Certificate es) <> "" /\
   get_fault fl = None /\
   exists s ca, secrets w !! store_key (custom_secret es) = Some s /\
                ParseCustomCASecret s = (ca, None)).
Proof.
  intros r. subst r. unfold new_calls.
  pass_paths fl es globalCA w; cbn; rewrite drop_app_length;
    (split;
     [ intros k Hin; in_calls Hin; congruence
     | split;
       [ intros Hin; in_calls Hin; eauto 10
       | intros (H1 & H2 & H3 & s' & ca' & H4 & H5); try congruence ] ]).
  rewrite !elem_of_cons. auto.
Qed.

(** X3. A pass emits at most one event, always after the events already
    recorded; and when it emits one, it is a warning on the cluster whose
    message is what the printer makes of the text of the error that the pass
    returns, with a nil CA. *)
Theorem events_accompany_errors fl es labels globalCA rp w :
  let r := ReconcileOrRetrieveCA fl es labels globalCA rp w in
  events (snd r) = events w \/
  exists e reason,
    fst r = (None, Some e) /\
    events (snd r) = events w ++
      [ {| ev_object := ExtractNamespacedName es; ev_type := EventTypeWarning;
           ev_reason := reason; ev_message := Sprintf (Error e) |} ].
Proof.
  intros r. subst r.
  pass_paths fl es globalCA w; cbn; auto; right; eauto.
Qed.

(** X4. Whatever the pass does, it changes the watch registry under this
    cluster's watch key only: every other registration is as before. *)
Theorem other_watches_untouched fl es labels globalCA rp w k :
  k <> CustomTransportCertsWatchKey ESNamer (ExtractNamespacedName es) ->
  watches (snd (ReconcileOrRetrieveCA fl es labels globalCA rp w)) !! k =
  watches w !! k.
Proof.
  intros Hk.
  assert (Hafter : forall ws, watches_after es ws !! k = ws !! k).
  { intros ws. unfold Transport.watches_after.
    destruct (decide (SecretName (Certificate es) = "")).
    - apply lookup_delete_ne. congruence.
    - apply lookup_insert_ne. congruence. }
  pass_paths fl es globalCA w; cbn; auto.
Qed.

(** X5. When a custom CA reference is configured or a shared CA is supplied,
    the pass creates no secret and modifies none: the store afterwards is
    the store before, possibly without the self-signed CA secret of this
    cluster. *)
Theorem only_the_self_signed_secret_can_go fl es labels globalCA rp w :
  SecretName (Certificate es) <> "" \/ globalCA <> None ->
  let r := ReconcileOrRetrieveCA fl es labels globalCA rp w in
  secrets (snd r) = secrets w \/
  secrets (snd r) = delete (store_key (gc_secret es)) (secrets w).
Proof.
  intros Hcfg r. subst r.
  pass_paths fl es globalCA w; cbn; auto.
  - destruct Hcfg; congruence.
  - unfold Transport.gc_secrets. destruct (delete_fault fl); auto.
Qed.

(** X6. When a custom CA reference is configured or a shared CA is supplied,
    the pass never returns a CA together with an error: the result is either
    a CA with a nil error or a nil CA with an error. *)
Theorem ca_or_error fl es labels globalCA rp w :
  SecretName (Certificate es) <> "" \/ globalCA <> None ->
  let r := ReconcileOrRetrieveCA fl es labels globalCA rp w in
  (exists ca, fst r = (ca, None)) \/ (exists e, fst r = (None, Some e)).
Proof.
  intros Hcfg r. subst r.
  pass_paths fl es globalCA w; cbn; eauto.
  destruct Hcfg; congruence.
Qed.

(** X7. A configured custom CA reference takes the shared CA, the labels and
    the rotation parameters out of play: the pass, with all its effects, is
    the same whatever they are.  In particular there is no fallback to the
    shared CA when the referenced secret is missing or does not parse. *)
Theorem custom_reference_overrides fl es labels labels' globalCA globalCA'
    rp rp' w :
  SecretName (Certificate es) <> "" ->
  ReconcileOrRetrieveCA fl es labels globalCA rp w =
  ReconcileOrRetrieveCA fl es labels' globalCA' rp' w.
Proof.
  intros Hn.
  destruct (watch_fault fl) as [e|] eqn:Hw.
  { now rewrite !(pass_watch_failed _ _ _ _ _ _ e) by assumption. }
  destruct (get_fault fl) as [e|] eqn:Hg.
  { now rewrite !(pass_fetch_failed _ _ _ _ _ _ e) by assumption. }
  destruct (secrets w !! store_key (custom_secret es)) as [s|] eqn:Hs.
  2:{ now rewrite !pass_secret_missing by assumption. }
  destruct (ParseCustomCASecret s) as [x [e|]] eqn:Hp.
  - now rewrite !(pass_parse_failed _ _ _ _ _ _ s x e) by assumption.
  - now rewrite !(pass_custom _ _ _ _ _ _ s x) by assumption.
Qed.

Lemma watches_after_idemp (es : Elasticsearch) (ws : gmap string NamedWatch) :
  watches_after es (watches_after es ws) = watches_after es ws.
Proof.
  unfold Transport.watches_after.
  destruct (decide (SecretName (Certificate es) = "")).
  - apply delete_delete_eq.
  - apply insert_insert_eq.
Qed.

(** X8. A pass that adopts a custom CA can be repeated, whatever the two
    garbage collections answer: when the referenced secret is not the
    self-signed CA secret itself and the watch reconciliation and the fetch
    succeed in both passes, the second pass returns the same CA, leaves the
    watch registry as the first pass left it and emits no event.  The store
    it leaves is the one the first pass left, except that the self-signed CA
    secret may now be gone; it is the same store whenever the first pass's
    delete reached the store. *)
Theorem custom_pass_is_idempotent fl1 fl2 es labels globalCA rp w s ca :
  watch_fault fl1 = None -> get_fault fl1 = None ->
  watch_fault fl2 = None -> get_fault fl2 = None ->
  SecretName (Certificate es) <> "" ->
  store_key (custom_secret es) <> store_key (gc_secret es) ->
  secrets w !! store_key (custom_secret es) = Some s ->
  ParseCustomCASecret s = (ca, None) ->
  let r1 := ReconcileOrRetrieveCA fl1 es labels globalCA rp w in
  let r2 := ReconcileOrRetrieveCA fl2 es labels globalCA rp (snd r1) in
  fst r1 = (ca, None) /\
  fst r2 = (ca, None) /\
  watches (snd r2) = watches (snd r1) /\
  events (snd r2) = events w /\
  (secrets (snd r2) = secrets (snd r1) \/
   secrets (snd r2) = delete (store_key (gc_secret es)) (secrets (snd r1))) /\
  (delete_fault fl1 = None -> secrets (snd r2) = secrets (snd r1)) /\
  (delete_fault fl2 = None ->
   secrets (snd r2) !! store_key (gc_secret es) = None).
Proof.
  intros Hw1 Hg1 Hw2 Hg2 Hn Hne Hs Hp r1 r2. subst r2 r1.
  rewrite (pass_custom _ _ _ _ _ _ s ca) by assumption. cbn.
  rewrite (pass_custom _ _ _ _ _ _ s ca); try assumption; cbn.
  - rewrite watches_after_idemp. unfold Transport.gc_secrets.
    repeat split.
    + destruct (delete_fault fl2); auto.
    + intros ->. destruct (delete_fault fl2); [reflexivity |].
      apply delete_delete_eq.
    + intros ->. apply lookup_delete_eq.
  - unfold Transport.gc_secrets. destruct (delete_fault fl1); [exact Hs |].
    rewrite lookup_delete_ne by congruence. exact Hs.
Qed.

(** X9. Referencing the self-signed CA secret itself as the custom CA uses it
    up: the pass parses it, returns its CA and then deletes it as garbage,
    so that the next pass finds the reference dangling and returns the
    store's NotFound error. *)
Theorem referencing_the_self_signed_secret_consumes_it
    fl es labels globalCA rp w s ca :
  watch_fault fl = None ->
  get_fault fl = None ->
  delete_fault fl = None ->
  SecretName (Certificate es) <> "" ->
  SecretName (Certificate es) =
    CAInternalSecretName ESNamer (es_Name es) TransportCAType ->
  secrets w !! store_key (custom_secret es) = Some s ->
  ParseCustomCASecret s = (ca, None) ->
  let r1 := ReconcileOrRetrieveCA fl es labels globalCA rp w in
  let r2 := ReconcileOrRetrieveCA fl es labels globalCA rp (snd r1) in
  fst r1 = (ca, None) /\
  secrets (snd r1) !! store_key (custom_secret es) = None /\
  fst r2 = (None, Some (not_found_error (custom_secret es))).
Proof.
  intros Hw Hg Hd Hn Hsame Hs Hp r1 r2. subst r2 r1.
  rewrite (pass_custom _ _ _ _ _ _ s ca) by assumption. cbn.
  assert (Hgone : gc_secrets fl es (secrets w) !! store_key (custom_secret es)
                  = None).
  { unfold Transport.gc_secrets, Transport.gc_secret, custom_secret. rewrite Hd.
    rewrite Hsame. apply lookup_delete_eq. }
  split; [reflexivity | split; [exact Hgone |]].
  rewrite pass_secret_missing; try assumption. reflexivity.
Qed.

Lemma pass_watches fl es labels globalCA rp w :
  watch_fault fl = None ->
  watches (snd (ReconcileOrRetrieveCA fl es labels globalCA rp w)) =
  watches_after es (watches w).
Proof.
  intros Hw0. pass_paths fl es globalCA w; cbn; try reflexivity; congruence.
Qed.

(** X16. Two clusters with the same name share one watch: when a cluster
    with a custom CA reference has had its pass, a pass for a cluster of the
    same name with no reference, in whatever namespace, removes the watch that
    the first one registered. *)
Theorem same_name_clusters_share_a_watch
    fl1 fl2 es1 es2 labels1 labels2 globalCA1 globalCA2 rp1 rp2 w :
  es_Name es1 = es_Name es2 ->
  watch_fault fl1 = None ->
  watch_fault fl2 = None ->
  SecretName (Certificate es1) <> "" ->
  SecretName (Certificate es2) = "" ->
  let key := CustomTransportCertsWatchKey ESNamer (ExtractNamespacedName es1) in
  let w1 := snd (ReconcileOrRetrieveCA fl1 es1 labels1 globalCA1 rp1 w) in
  let w2 := snd (ReconcileOrRetrieveCA fl2 es2 labels2 globalCA2 rp2 w1) in
  watches w1 !! key = Some {| Watcher := ExtractNamespacedName es1;
                              Watched := SecretName (Certificate es1) |} /\
  watches w2 !! key = None.
Proof.
  intros Hname Hw1 Hw2 Hn1 Hn2 key w1 w2. subst key w2 w1.
  rewrite !pass_watches by assumption.
  unfold Transport.watches_after.
  destruct (decide (SecretName (Certificate es1) = "")); [contradiction |].
  destruct (decide (SecretName (Certificate es2) = "")); [| contradiction].
  split; [apply lookup_insert_eq |].
  unfold CustomTransportCertsWatchKey, ExtractNamespacedName. cbn.
  rewrite Hname. apply lookup_delete_eq.
Qed.

End Pass.

(** ** The watch key *)

(** C7. The watch key is computed from the cluster's name alone: the two
    distinct identities (ns-a, prod) and (ns-b, prod) get the same watch key,
    whatever the namer does with a name and its suffixes. *)
Theorem watch_key_ignores_namespace :
  {| Namespace := "ns-a"; Name := "prod" |} <>
  {| Namespace := "ns-b"; Name := "prod" |} /\
  forall namer : Namer,
    CustomTransportCertsWatchKey namer {| Namespace := "ns-a"; Name := "prod" |} =
    CustomTransportCertsWatchKey namer {| Namespace := "ns-b"; Name := "prod" |}.
Proof. split; [discriminate | reflexivity]. Qed.

(** ** The pass on the example inputs *)

Local Abbreviation run :=
  (ReconcileOrRetrieveCA fmt.Sprintf ESNamer CAInternalSecretName ParseCustomCASecret
     ReconcileCAForOwner).

Lemma ca_precedence_witness :
  fst (run no_faults es_custom ∅ None rotation (world_with good_secret)) =
    (Some {| Cert := "custom cert"; PrivateKey := "" |}, None) /\
  fst (run no_faults es_plain ∅ (Some shared_ca) rotation empty_world) =
    (Some shared_ca, None) /\
  fst (run no_faults es_plain ∅ None rotation empty_world) =
    (Some {| Cert := "self-signed prod"; PrivateKey := "generated" |}, None).
Proof.
  split; [| split].
  - apply (proj1 (ca_precedence fmt.Sprintf ESNamer CAInternalSecretName ParseCustomCASecret
             ReconcileCAForOwner no_faults es_custom ∅ None rotation
             (world_with good_secret) eq_refl) good_secret).
    + discriminate.
    + reflexivity.
    + vm_compute. reflexivity.
    + vm_compute. reflexivity.
  - apply (proj1 (proj2 (ca_precedence fmt.Sprintf ESNamer CAInternalSecretName
             ParseCustomCASecret ReconcileCAForOwner no_faults es_plain ∅
             (Some shared_ca) rotation empty_world eq_refl)) shared_ca);
      reflexivity.
  - etransitivity.
    + apply (proj2 (proj2 (ca_precedence fmt.Sprintf ESNamer CAInternalSecretName
               ParseCustomCASecret ReconcileCAForOwner no_faults es_plain ∅
               None rotation empty_world eq_refl))); reflexivity.
    + vm_compute. reflexivity.
Defined.

Lemma parse_failure_aborts_witness :
  fst (run no_faults es_custom ∅ None rotation (world_with bad_secret)) =
    (None, Some {| IsNotFound := false;
                   Error := "can't parse CA: no certificate" |}) /\
  events (snd (run no_faults es_custom ∅ None rotation (world_with bad_secret))) =
    [ {| ev_object := {| Namespace := "default"; Name := "prod" |};
         ev_type := EventTypeWarning; ev_reason := EventReasonValidation;
         ev_message := "can't parse CA: no certificate" |} ] /\
  secrets (snd (run no_faults es_custom ∅ None rotation (world_with bad_secret))) =
    secrets (world_with bad_secret).
Proof.
  destruct (parse_failure_aborts fmt.Sprintf ESNamer CAInternalSecretName ParseCustomCASecret
              ReconcileCAForOwner no_faults es_custom ∅ None rotation
              (world_with bad_secret) bad_secret None
              {| IsNotFound := false; Error := "can't parse CA: no certificate" |})
    as (Hr & He & Hs & _).
  - reflexivity.
  - discriminate.
  - reflexivity.
  - vm_compute. reflexivity.
  - vm_compute. reflexivity.
  - split; [exact Hr | split; [exact He | exact Hs]].
Defined.

Lemma missing_secret_is_an_error_witness :
  exists err,
    fst (run no_faults es_custom ∅ None rotation empty_world) = (None, Some err) /\
    secrets (snd (run no_faults es_custom ∅ None rotation empty_world)) =
      secrets empty_world /\
    (watch_fault no_faults = None ->
     events (snd (run no_faults es_custom ∅ None rotation empty_world)) =
       events empty_world ++
       [ {| ev_object := ExtractNamespacedName es_custom;
            ev_type := EventTypeWarning; ev_reason := EventReasonUnexpected;
            ev_message := fmt.Sprintf (Error err) |} ]).
Proof.
  apply (missing_secret_is_an_error fmt.Sprintf ESNamer CAInternalSecretName
           ParseCustomCASecret ReconcileCAForOwner no_faults es_custom ∅ None
           rotation empty_world).
  - discriminate.
  - vm_compute. reflexivity.
Defined.

(** C3, refuted as stated: the reference is configured and the secret is
    missing, but the watch reconciliation fails; the pass returns an error
    and emits no event. *)
Lemma missing_secret_without_event :
  SecretName (Certificate es_custom) <> "" /\
  secrets empty_world !! store_key (custom_secret es_custom) = None /\
  fst (run watch_broken es_custom ∅ None rotation empty_world) =
    (None, Some store_unavailable) /\
  events (snd (run watch_broken es_custom ∅ None rotation empty_world)) = [].
Proof. split; [discriminate | repeat split]. Qed.

(** C2. A parse error whose text holds a percent sign does not reach the
    event as it is: the pass returns the error with its text intact, but the
    one validation warning it emits carries that text run through the
    printer as a format. *)
Theorem parse_error_is_used_as_format :
  fst (ReconcileOrRetrieveCA fmt.Sprintf ESNamer CAInternalSecretName
         quoting_parser ReconcileCAForOwner no_faults es_custom ∅ None rotation
         (world_with escaped_secret)) =
    (None, Some {| IsNotFound := false;
                   Error := "can't parse CA certificate %2D%2DBEGIN CERTIFICATE" |}) /\
  events (snd (ReconcileOrRetrieveCA fmt.Sprintf ESNamer CAInternalSecretName
                 quoting_parser ReconcileCAForOwner no_faults es_custom ∅ None
                 rotation (world_with escaped_secret))) =
    [ {| ev_object := {| Namespace := "default"; Name := "prod" |};
         ev_type := EventTypeWarning; ev_reason := EventReasonValidation;
         ev_message :=
           "can't parse CA certificate %!D(MISSING)%!D(MISSING)BEGIN CERTIFICATE" |} ].
Proof. split; vm_compute; reflexivity. Qed.

Lemma gc_is_best_effort_witness :
  fst (run delete_broken es_custom ∅ None rotation (world_with good_secret)) =
    (Some {| Cert := "custom cert"; PrivateKey := "" |}, None) /\
  deletes (calls (snd (run delete_broken es_custom ∅ None rotation
                         (world_with good_secret)))) =
    [ {| Namespace := "default"; Name := "prod-transport-ca-internal" |} ] /\
  logs (snd (run delete_broken es_custom ∅ None rotation
               (world_with good_secret))) =
    [ gc_log es_custom store_unavailable ].
Proof.
  destruct (gc_is_best_effort fmt.Sprintf ESNamer CAInternalSecretName ParseCustomCASecret
              ReconcileCAForOwner delete_broken es_custom ∅ None rotation
              (world_with good_secret) good_secret
              (Some {| Cert := "custom cert"; PrivateKey := "" |}))
    as (Hr & Hd & _ & _ & Hl & _).
  - reflexivity.
  - discriminate.
  - reflexivity.
  - vm_compute. reflexivity.
  - vm_compute. reflexivity.
  - split; [exact Hr | split; [exact Hd |]].
    exact (proj1 (Hl store_unavailable eq_refl eq_refl)).
Defined.

Lemma watch_failure_is_fatal_witness :
  fst (run watch_broken es_custom ∅ None rotation (world_with good_secret)) =
    (None, Some store_unavailable) /\
  events (snd (run watch_broken es_custom ∅ None rotation
                 (world_with good_secret))) = [] /\
  calls (snd (run watch_broken es_custom ∅ None rotation
                (world_with good_secret))) =
    [ CallReconcileCustomCertWatch "prod-custom-transport-certs"
        {| Namespace := "default"; Name := "prod" |}
        {| SecretName := "custom-ca" |} ].
Proof.
  destruct (watch_failure_is_fatal fmt.Sprintf ESNamer CAInternalSecretName ParseCustomCASecret
              ReconcileCAForOwner watch_broken es_custom ∅ None rotation
              (world_with good_secret) store_unavailable eq_refl)
    as (Hr & _ & _ & He & _ & Hc).
  split; [exact Hr | split; [exact He | exact Hc]].
Defined.

Lemma transient_errors_are_returned_unchanged_witness :
  (fst (run watch_broken es_custom ∅ None rotation (world_with good_secret)) =
     (None, Some store_unavailable) /\
   events (snd (run watch_broken es_custom ∅ None rotation
                  (world_with good_secret))) = []) /\
  (fst (run get_broken es_custom ∅ None rotation (world_with good_secret)) =
     (None, Some store_unavailable) /\
   events (snd (run get_broken es_custom ∅ None rotation
                  (world_with good_secret))) =
     [ {| ev_object := {| Namespace := "default"; Name := "prod" |};
          ev_type := EventTypeWarning; ev_reason := EventReasonUnexpected;
          ev_message := "context deadline exceeded" |} ]).
Proof.
  split.
  - apply (proj1 (transient_errors_are_returned_unchanged fmt.Sprintf ESNamer
                    CAInternalSecretName ParseCustomCASecret ReconcileCAForOwner
                    watch_broken es_custom ∅ None rotation
                    (world_with good_secret)) store_unavailable).
    reflexivity.
  - apply (proj1 (proj2 (transient_errors_are_returned_unchanged fmt.Sprintf
                    ESNamer CAInternalSecretName ParseCustomCASecret
                    ReconcileCAForOwner get_broken es_custom ∅ None rotation
                    (world_with good_secret))) store_unavailable).
    + reflexivity.
    + discriminate.
    + reflexivity.
Defined.

(** C6, refuted as stated: the store is unavailable while the referenced
    custom CA secret is fetched; the error comes back unchanged, but a
    warning event is emitted for it. *)
Lemma transient_fetch_failure_emits_event :
  get_fault get_broken = Some store_unavailable /\
  IsNotFound store_unavailable = false /\
  fst (run get_broken es_custom ∅ None rotation (world_with good_secret)) =
    (None, Some store_unavailable) /\
  events (world_with good_secret) = [] /\
  events (snd (run get_broken es_custom ∅ None rotation
                 (world_with good_secret))) =
    [ {| ev_object := {| Namespace := "default"; Name := "prod" |};
         ev_type := EventTypeWarning; ev_reason := EventReasonUnexpected;
         ev_message := "context deadline exceeded" |} ].
Proof. repeat split. Qed.

Lemma shared_ca_writes_nothing_witness :
  secrets (snd (run no_faults es_plain ∅ (Some shared_ca) rotation
                  (world_with good_secret))) = secrets (world_with good_secret) /\
  calls (snd (run no_faults es_plain ∅ (Some shared_ca) rotation
                (world_with good_secret))) =
    [ CallReconcileCustomCertWatch "prod-custom-transport-certs"
        {| Namespace := "default"; Name := "prod" |} {| SecretName := "" |} ] /\
  fst (run no_faults es_plain ∅ (Some shared_ca) rotation
         (world_with good_secret)) = (Some shared_ca, None).
Proof.
  destruct (shared_ca_writes_nothing fmt.Sprintf ESNamer CAInternalSecretName
              ParseCustomCASecret ReconcileCAForOwner no_faults es_plain ∅
              shared_ca rotation (world_with good_secret) eq_refl)
    as (Hs & Hc & Hr).
  split; [exact Hs | split; [exact Hc | exact (Hr eq_refl)]].
Defined.

(** C8, refuted as stated: a shared CA is supplied and no reference is
    configured, but the watch reconciliation fails; the pass returns the
    error and no CA. *)
Lemma shared_ca_lost_when_watch_fails :
  SecretName (Certificate es_plain) = "" /\
  fst (run watch_broken es_plain ∅ (Some shared_ca) rotation empty_world) =
    (None, Some store_unavailable) /\
  fst (run watch_broken es_plain ∅ (Some shared_ca) rotation empty_world) <>
    (Some shared_ca, None).
Proof. split; [reflexivity | split; [reflexivity | discriminate]]. Qed.

Lemma watch_is_reconciled_first_witness :
  watches (snd (run no_faults es_custom ∅ None rotation empty_world))
    !! "prod-custom-transport-certs" =
  Some {| Watcher := {| Namespace := "default"; Name := "prod" |};
          Watched := "custom-ca" |}.
Proof.
  exact (proj2 (watch_is_reconciled_first fmt.Sprintf ESNamer CAInternalSecretName
                  ParseCustomCASecret ReconcileCAForOwner no_faults es_custom ∅
                  None rotation empty_world) eq_refl).
Defined.

(** ** The further properties on the example inputs *)

Lemma delete_only_garbage_collects_witness :
  CallDelete {| Namespace := "default"; Name := "prod-transport-ca-internal" |} ∈
    new_calls (world_with good_secret)
      (snd (run no_faults es_custom ∅ None rotation (world_with good_secret))).
Proof.
  apply (proj2 (delete_only_garbage_collects fmt.Sprintf ESNamer CAInternalSecretName
                  ParseCustomCASecret ReconcileCAForOwner no_faults es_custom ∅
                  None rotation (world_with good_secret))).
  split; [reflexivity |]. split; [discriminate |]. split; [reflexivity |].
  exists good_secret, (Some {| Cert := "custom cert"; PrivateKey := "" |}).
  split; vm_compute; reflexivity.
Defined.

Lemma other_watches_untouched_witness :
  watches (snd (run no_faults es_custom ∅ None rotation world_with_watch))
    !! "other-custom-transport-certs" =
  watches world_with_watch !! "other-custom-transport-certs".
Proof.
  apply (other_watches_untouched fmt.Sprintf ESNamer CAInternalSecretName
           ParseCustomCASecret ReconcileCAForOwner no_faults es_custom ∅ None
           rotation world_with_watch "other-custom-transport-certs").
  cbv. discriminate.
Defined.

Lemma only_the_self_signed_secret_can_go_witness :
  secrets (snd (run no_faults es_custom ∅ None rotation
                  (world_with good_secret))) = secrets (world_with good_secret) \/
  secrets (snd (run no_faults es_custom ∅ None rotation
                  (world_with good_secret))) =
    delete (store_key (gc_secret ESNamer CAInternalSecretName es_custom))
      (secrets (world_with good_secret)).
Proof.
  apply (only_the_self_signed_secret_can_go fmt.Sprintf ESNamer CAInternalSecretName
           ParseCustomCASecret ReconcileCAForOwner no_faults es_custom ∅ None
           rotation (world_with good_secret)).
  left. discriminate.
Defined.

Lemma ca_or_error_witness :
  (exists ca, fst (run get_broken es_plain ∅ (Some shared_ca) rotation
                     empty_world) = (ca, None)) \/
  (exists e, fst (run get_broken es_plain ∅ (Some shared_ca) rotation
                    empty_world) = (None, Some e)).
Proof.
  apply (ca_or_error fmt.Sprintf ESNamer CAInternalSecretName ParseCustomCASecret
           ReconcileCAForOwner get_broken es_plain ∅ (Some shared_ca) rotation
           empty_world).
  right. discriminate.
Defined.

Lemma custom_reference_overrides_witness :
  run no_faults es_custom ∅ None rotation empty_world =
  run no_faults es_custom {[ "team" := "search" ]} (Some shared_ca)
    {| Validity := 30; RotateBefore := 1 |} empty_world.
Proof.
  apply (custom_reference_overrides fmt.Sprintf ESNamer CAInternalSecretName
           ParseCustomCASecret ReconcileCAForOwner no_faults es_custom).
  discriminate.
Defined.

Lemma custom_pass_is_idempotent_witness :
  fst (run no_faults es_custom ∅ None rotation
         (snd (run delete_broken es_custom ∅ None rotation
                 (world_with good_secret)))) =
    (Some {| Cert := "custom cert"; PrivateKey := "" |}, None) /\
  secrets (snd (run no_faults es_custom ∅ None rotation
                  (snd (run delete_broken es_custom ∅ None rotation
                          (world_with good_secret)))))
    !! store_key (gc_secret ESNamer CAInternalSecretName es_custom) = None.
Proof.
  destruct (custom_pass_is_idempotent fmt.Sprintf ESNamer CAInternalSecretName
              ParseCustomCASecret ReconcileCAForOwner delete_broken no_faults
              es_custom ∅ None rotation (world_with good_secret) good_secret
              (Some {| Cert := "custom cert"; PrivateKey := "" |}))
    as (_ & Hr & _ & _ & _ & _ & Hgone).
  - reflexivity.
  - reflexivity.
  - reflexivity.
  - reflexivity.
  - discriminate.
  - cbv. discriminate.
  - vm_compute. reflexivity.
  - vm_compute. reflexivity.
  - split; [exact Hr | exact (Hgone eq_refl)].
Defined.

Lemma same_name_clusters_share_a_watch_witness :
  watches (snd (run no_faults es_custom ∅ None rotation empty_world))
    !! "prod-custom-transport-certs" =
    Some {| Watcher := {| Namespace := "default"; Name := "prod" |};
            Watched := "custom-ca" |} /\
  watches (snd (run no_faults es_plain_elsewhere ∅ None rotation
                  (snd (run no_faults es_custom ∅ None rotation empty_world))))
    !! "prod-custom-transport-certs" = None.
Proof.
  apply (same_name_clusters_share_a_watch fmt.Sprintf ESNamer
           CAInternalSecretName ParseCustomCASecret ReconcileCAForOwner
           no_faults no_faults es_custom es_plain_elsewhere ∅ ∅ None None
           rotation rotation empty_world).
  - reflexivity.
  - reflexivity.
  - reflexivity.
  - discriminate.
  - reflexivity.
Defined.

Lemma referencing_the_self_signed_secret_consumes_it_witness :
  fst (run no_faults es_self_ref ∅ None rotation world_self_ref) =
    (Some {| Cert := "custom cert"; PrivateKey := "" |}, None) /\
  fst (run no_faults es_self_ref ∅ None rotation
         (snd (run no_faults es_self_ref ∅ None rotation world_self_ref))) =
    (None, Some {| IsNotFound := true;
                   Error := "secrets prod-transport-ca-internal not found" |}).
Proof.
  destruct (referencing_the_self_signed_secret_consumes_it fmt.Sprintf ESNamer
              CAInternalSecretName ParseCustomCASecret ReconcileCAForOwner
              no_faults es_self_ref ∅ None rotation world_self_ref good_secret
              (Some {| Cert := "custom cert"; PrivateKey := "" |}))
    as (Hr1 & _ & Hr2).
  - reflexivity.
  - reflexivity.
  - reflexivity.
  - discriminate.
  - reflexivity.
  - vm_compute. reflexivity.
  - vm_compute. reflexivity.
  - split; [exact Hr1 | exact Hr2].
Defined.



End TransportSpec.

(** * Properties of the readiness check *)

Module ServicesSpec.
Import Transport Services.

Lemma range_Subsets_true (subsets : list EndpointSubset) :
  range_Subsets subsets = (true, None) <->
  exists subs, subs ∈ subsets /\ Addresses subs <> [].
Proof.
  induction subsets as [|subs rest IH]; cbn.
  - split; [discriminate |]. intros (subs & Hin & _). inversion Hin.
  - destruct (Addresses subs) as [|a l] eqn:Ha; cbn.
    + rewrite IH. split.
      * intros (s & Hin & Hs). exists s. split; [now right | exact Hs].
      * intros (s & Hin & Hs). apply elem_of_cons in Hin as [-> | Hin].
        -- congruence.
        -- exists s. auto.
    + split; [| reflexivity]. intros _. exists subs.
      split; [now left | congruence].
Qed.

Lemma range_Subsets_cases (subsets : list EndpointSubset) :
  range_Subsets subsets = (true, None) \/ range_Subsets subsets = (false, None).
Proof.
  induction subsets as [|subs rest IH]; simpl.
  - right. reflexivity.
  - destruct (Nat.ltb 0 (length (Addresses subs))); [left; reflexivity | exact IH].
Qed.

(** C10. [IsServiceReady] returns [(false, err)] whenever fetching the
    Endpoints object named after the service fails with [err]; otherwise it
    returns [(true, nil)] exactly when some subset has a non-empty address
    list, and [(false, nil)] when there is none (no subset at all, or only
    subsets without addresses). *)
Theorem IsServiceReady_spec (c : Client) (service : Service) :
  let namespacedName :=
    {| Namespace := svc_Namespace service; Name := svc_Name service |} in
  (forall err, Get c namespacedName = inl err ->
     IsServiceReady c service = (false, Some err)) /\
  (forall endpoints, Get c namespacedName = inr endpoints ->
     (IsServiceReady c service = (true, None) <->
        exists subs, subs ∈ Subsets endpoints /\ Addresses subs <> []) /\
     (Forall (fun subs => Addresses subs = []) (Subsets endpoints) ->
        IsServiceReady c service = (false, None)) /\
     (IsServiceReady c service = (true, None) \/
      IsServiceReady c service = (false, None))).
Proof.
  intros nsn. subst nsn. unfold IsServiceReady. split.
  - intros err ->. reflexivity.
  - intros endpoints ->. split; [apply range_Subsets_true |]. split.
    + intros Hall.
      destruct (range_Subsets_cases (Subsets endpoints)) as [Ht | Hf];
        [| exact Hf].
      apply range_Subsets_true in Ht as (subs & Hin & Hne).
      rewrite Forall_forall in Hall. destruct Hne. now apply Hall.
    + apply range_Subsets_cases.
Qed.

Lemma IsServiceReady_spec_witness :
  IsServiceReady example_client
    {| svc_Namespace := "default"; svc_Name := "missing" |} =
    (false, Some {| IsNotFound := true; Error := "secrets missing not found" |}) /\
  IsServiceReady example_client
    {| svc_Namespace := "default"; svc_Name := "prod-es-http" |} = (true, None) /\
  IsServiceReady example_client
    {| svc_Namespace := "default"; svc_Name := "staging-es-http" |} = (false, None).
Proof.
  split; [| split].
  - apply (proj1 (IsServiceReady_spec example_client
                    {| svc_Namespace := "default"; svc_Name := "missing" |})).
    reflexivity.
  - apply (proj1 (proj2 (IsServiceReady_spec example_client
                    {| svc_Namespace := "default"; svc_Name := "prod-es-http" |})
                    ready_endpoints eq_refl)).
    exists {| Addresses := [ {| IP := "10.0.0.8" |} ]; NotReadyAddresses := [] |}.
    split; [right; left | discriminate].
  - apply (proj1 (proj2 (proj2 (IsServiceReady_spec example_client
                    {| svc_Namespace := "default"; svc_Name := "staging-es-http" |})
                    unready_endpoints eq_refl))).
    repeat constructor.
Defined.

(** ** The external service *)

Section ExternalService.

Variable HTTPService : string -> string.
Variable HTTPPort : Z.
Variable NewLabels : NamespacedName -> gmap string string.
Variable GetServiceType : string -> string.
Variable Concat : list string -> string.

Local Abbreviation ExternalServiceName := (ExternalServiceName HTTPService).
Local Abbreviation ExternalServiceURL :=
  (ExternalServiceURL HTTPService HTTPPort Concat).
Local Abbreviation NewExternalService :=
  (NewExternalService HTTPService HTTPPort NewLabels GetServiceType).
Local Abbreviation GetExternalService := (GetExternalService HTTPService).

Lemma NewExternalService_key (es : ElasticsearchV1alpha1) :
  service_key (NewExternalService es) =
  {| Namespace := v1_Namespace es; Name := ExternalServiceName (v1_Name es) |}.
Proof.
  unfold Services.NewExternalService, service_key. cbn.
  destruct (decide _); reflexivity.
Qed.

(** X11. The URL of the external endpoint addresses the very service that
    [NewExternalService] builds: its host is made of that service's name and
    namespace, and its port is the port of that service's only port. *)
Theorem url_addresses_the_external_service (es : ElasticsearchV1alpha1) :
  let svc := NewExternalService es in
  exists p,
    Ports (Spec svc) = [p] /\
    ExternalServiceURL es =
      Concat ["https://"; meta_Name (Meta svc); "."; meta_Namespace (Meta svc);
              ".svc.cluster.local"; ":"; Itoa (Port p)].
Proof.
  intros svc. subst svc. unfold Services.NewExternalService. cbn.
  destruct (decide _); cbn; eexists; split; reflexivity.
Qed.

(** X12. Creating and then fetching: once the service that
    [NewExternalService] builds is stored under its own namespace and name,
    [GetExternalService] returns that service with a nil error, whatever
    else the store holds. *)
Theorem created_service_is_found (es : ElasticsearchV1alpha1)
    (m : gmap (string * string) ServiceObject) :
  let svc := NewExternalService es in
  GetExternalService
    (store_client (<[store_key (service_key svc) := svc]> m)) es =
  (svc, None).
Proof.
  intros svc. subst svc. rewrite NewExternalService_key.
  unfold Services.GetExternalService, store_client. cbn.
  unfold store_key at 2. cbn. unfold store_key. cbn.
  rewrite lookup_insert_eq. reflexivity.
Qed.

End ExternalService.

Lemma range_Subsets_addresses (subsets : list EndpointSubset) :
  range_Subsets subsets = (true, None) <->
  exists a, a ∈ Addresses <$> subsets /\ a <> [].
Proof.
  rewrite range_Subsets_true. split.
  - intros (subs & Hin & Hne). exists (Addresses subs).
    split; [| exact Hne]. apply list_elem_of_fmap. eauto.
  - intros (a & Hin & Hne). apply list_elem_of_fmap in Hin as (subs & -> & Hin).
    eauto.
Qed.

(** X14. Readiness depends only on the ready addresses: two Endpoints objects
    whose subsets carry the same [Addresses] lists, in any order of the
    subsets and whatever their not-ready addresses, give the same answer. *)
Theorem readiness_ignores_order_and_unready (c1 c2 : Client)
    (s1 s2 : Service) (e1 e2 : Endpoints) :
  Get c1 {| Namespace := svc_Namespace s1; Name := svc_Name s1 |} = inr e1 ->
  Get c2 {| Namespace := svc_Namespace s2; Name := svc_Name s2 |} = inr e2 ->
  Addresses <$> Subsets e1 ≡ₚ Addresses <$> Subsets e2 ->
  IsServiceReady c1 s1 = IsServiceReady c2 s2.
Proof.
  intros H1 H2 Hperm. unfold IsServiceReady. rewrite H1, H2.
  destruct (range_Subsets_cases (Subsets e1)) as [Ha | Ha];
    destruct (range_Subsets_cases (Subsets e2)) as [Hb | Hb];
    rewrite Ha, Hb; try reflexivity; exfalso.
  - apply range_Subsets_addresses in Ha as (a & Hin & Hne).
    rewrite Hperm in Hin.
    assert (Ht : range_Subsets (Subsets e2) = (true, None))
      by (apply range_Subsets_addresses; eauto).
    congruence.
  - apply range_Subsets_addresses in Hb as (a & Hin & Hne).
    rewrite <- Hperm in Hin.
    assert (Ht : range_Subsets (Subsets e1) = (true, None))
      by (apply range_Subsets_addresses; eauto).
    congruence.
Qed.

Lemma readiness_ignores_order_and_unready_witness :
  IsServiceReady {| Get := fun _ => inr ready_endpoints |}
    {| svc_Namespace := "default"; svc_Name := "prod-es-http" |} =
  IsServiceReady {| Get := fun _ => inr shuffled_endpoints |}
    {| svc_Namespace := "default"; svc_Name := "prod-es-http" |}.
Proof.
  apply (readiness_ignores_order_and_unready
           {| Get := fun _ => inr ready_endpoints |}
           {| Get := fun _ => inr shuffled_endpoints |}
           {| svc_Namespace := "default"; svc_Name := "prod-es-http" |}
           {| svc_Namespace := "default"; svc_Name := "prod-es-http" |}
           ready_endpoints shuffled_endpoints eq_refl eq_refl).
  cbn. apply Permutation_swap.
Defined.

End ServicesSpec.
